(** * Sprint detection and phase enrichment (src/metrics.py, src/eda.py)

    A shallow embedding of [detect_sprints], [enrich_sprints_with_phases]
    and [add_sprint_context_flags], with the pandas operations they call
    written out as list functions.

    Numbers.  A float64 cell is an [option Q]: [None] is NaN / missing, and
    [Some q] is a finite value.  Arithmetic is exact; the comparisons of the
    source are against constants (24.5, 29, 26.0, 33.0, 7.0, 1.0, 32.0) that
    binary64 represents exactly.  Frame numbers and identifiers are [Z]. *)

From Stdlib Require Import ZArith QArith Lia Lqa.
From stdpp Require Import gmap strings list fin_maps sorting.

Close Scope Q_scope.
Open Scope Z_scope.
Open Scope nat_scope.

(** ** Rational helpers *)

Definition Qltb (a b : Q) : bool := negb (Qle_bool b a).

(** ** Stable sorting ([sort_values]) and first-occurrence [unique] *)

Section Sorting.
Context {A : Type} (leb : A → A → bool).

Fixpoint insert_sorted (a : A) (l : list A) : list A :=
    match l with
    | [] => [a]
    | b :: t => if leb a b then a :: b :: t else b :: insert_sorted a t
    end.

  (** Insertion from the right keeps rows with equal keys in input order. *)
Fixpoint sort_values (l : list A) : list A :=
    match l with
    | [] => []
    | a :: t => insert_sorted a (sort_values t)
    end.
End Sorting.

Fixpoint unique (l : list Z) : list Z :=
  match l with
  | [] => []
  | a :: t => a :: filter (fun b => b ≠ a) (unique t)
  end.

(** ** Windowed statistics ([rolling(..., center=True, min_periods=1)]) *)

Definition dropna (l : list (option Q)) : list Q := omap id l.

Definition Qsum (l : list Q) : Q := foldr Qplus 0%Q l.

Definition mean (l : list Q) : Q := (Qsum l / inject_Z (Z.of_nat (length l)))%Q.

Definition nth_Q (l : list Q) (i : nat) : Q := nth i l 0%Q.

Definition median (l : list Q) : Q :=
  let s := sort_values Qle_bool l in
  let n := length s in
  if Nat.even n
  then ((nth_Q s (n / 2 - 1) + nth_Q s (n / 2)) / 2)%Q
  else nth_Q s (n / 2).

(** [Series.quantile(q)] with the default linear interpolation, for
    [q = num / den]. *)
Definition quantile (num den : nat) (l : list Q) : Q :=
  let s := sort_values Qle_bool l in
  let pos := num * (length s - 1) in
  let lo := pos / den in
  let frac := (inject_Z (Z.of_nat (pos mod den)) / inject_Z (Z.of_nat den))%Q in
  (nth_Q s lo + (nth_Q s (Nat.min (lo + 1) (length s - 1)) - nth_Q s lo) * frac)%Q.

(** The cells a centered window of nominal size [w] sees at position [i]:
    positions [i + offset + 1 - w .. i + offset] with
    [offset = (w - 1) / 2], cut at both ends of the column. *)
Definition window_at {A} (w : nat) (l : list A) (i : nat) : list A :=
  let stop := i + (w - 1) / 2 + 1 in
  let start := stop - w in
  take (stop - start) (drop start l).

(** With [min_periods = 1] a window yields a value as soon as one of its
    cells is not missing; missing cells are left out, not counted as 0. *)
Definition window_stat (f : list Q → Q) (cells : list (option Q)) : option Q :=
  match dropna cells with
  | [] => None
  | v :: vs => Some (f (v :: vs))
  end.

Definition rolling (f : list Q → Q) (w : nat) (l : list (option Q))
  : list (option Q) :=
  map (fun i => window_stat f (window_at w l i)) (seq 0 (length l)).

Definition rolling_median := rolling median.
Definition rolling_mean := rolling mean.

(** ** Signal conditioner (detect_sprints, lines 51-70) *)

(** [distances.mask(distances > 1.0, np.nan)]: NaN > 1.0 is False, so a
    missing distance stays missing. *)
Definition mask_teleports (distances : list (option Q)) : list (option Q) :=
  map (fun d => match d with
                | Some v => if Qltb 1 v then None else Some v
                | None => None
                end) distances.

(** [distances * fps * 3.6] *)
Definition to_kmh (fps : Z) (distances : list (option Q)) : list (option Q) :=
  map (fmap (fun v => (v * inject_Z fps * (36 # 10))%Q)) distances.

(** [clip(upper=cap)] *)
Definition clip_upper (cap : Q) (speeds : list (option Q)) : list (option Q) :=
  map (fmap (fun v => if Qle_bool v cap then v else cap)) speeds.

Definition smooth_window : nat := 11.

Definition speeds_kmh (fps : Z) (distances : list (option Q)) : list (option Q) :=
  clip_upper 32 (to_kmh fps (mask_teleports distances)).

Definition speed_smooth (fps : Z) (distances : list (option Q)) : list (option Q) :=
  rolling_mean 7 (rolling_median smooth_window (speeds_kmh fps distances)).

(** ** Sprint segmenter (detect_sprints, lines 74-104) *)

(** [speed_smooth.fillna(0) >= threshold_kmh] *)
Definition is_sprinting (threshold_kmh : Q) (s : option Q) : bool :=
  Qle_bool threshold_kmh (default 0%Q s).

(** [(is_sprinting != is_sprinting.shift()).cumsum()]: the shifted column
    starts with NaN, which differs from every flag, so the first row always
    opens group 1. *)
Definition changed (prev : option bool) (b : bool) : bool :=
  match prev with
  | None => true
  | Some p => xorb p b
  end.

Fixpoint sprint_group_from (prev : option bool) (acc : nat) (flags : list bool)
  : list nat :=
  match flags with
  | [] => []
  | b :: t =>
      let acc' := if changed prev b then S acc else acc in
      acc' :: sprint_group_from (Some b) acc' t
  end.

Definition sprint_group (flags : list bool) : list nat :=
  sprint_group_from None 0 flags.

(** [groupby(key)]: groups in ascending key order, rows of a group in their
    original order. *)
Fixpoint add_to_group {A} (k : nat) (a : A) (gs : list (nat * list A))
  : list (nat * list A) :=
  match gs with
  | [] => [(k, [a])]
  | (k', rows) :: t =>
      if Nat.eqb k k' then (k', rows ++ [a]) :: t
      else if Nat.ltb k k' then (k, [a]) :: (k', rows) :: t
      else (k', rows) :: add_to_group k a t
  end.

Definition groupby {A} (l : list (nat * A)) : list (nat * list A) :=
  foldl (fun gs ka => add_to_group ka.1 ka.2 gs) [] l.

(** A row of the per-player frame as the segmenter reads it: the [frame]
    column and the [speed_smooth] column. *)
Abbreviation SpeedRow := (Z * option Q)%type.

(** [pdf[pdf["is_sprinting"]].groupby("sprint_group")] *)
Definition sprint_groups (threshold_kmh : Q) (pdf : list SpeedRow)
  : list (nat * list SpeedRow) :=
  let flags := map (fun r => is_sprinting threshold_kmh r.2) pdf in
  let keyed := zip (sprint_group flags) pdf in
  groupby (filter (fun kr => is_sprinting threshold_kmh kr.2.2 = true) keyed).

Record SprintCandidate := {
  frame_start : Z;
  frame_end : Z;
  mid_frame : Z;
  duration_s : Q;
  distance_m : Q;
  avg_speed_kmh : Q;
  max_speed_kmh : Q;
}.

Definition min_frame (fs : list Z) : Z := foldr Z.min (hd 0%Z fs) fs.
Definition max_frame (fs : list Z) : Z := foldr Z.max (hd 0%Z fs) fs.

(** The body of the loop over sprint groups up to the distance estimate.
    [int((frame_start + frame_end) / 2)] is a float division followed by
    truncation towards zero, hence [Z.quot]. *)
Definition summarise (fps : Z) (sprint : list SpeedRow) : option SprintCandidate :=
  if length sprint <? 6 then None
  else
    let frame_start := min_frame (map fst sprint) in
    let frame_end := max_frame (map fst sprint) in
    let mid_frame := Z.quot (frame_start + frame_end) 2 in
    let duration_s := (inject_Z (frame_end - frame_start + 1) / inject_Z fps)%Q in
    let sprint_speeds := dropna (map snd sprint) in
    if (length sprint_speeds =? 0) || (length sprint_speeds <? 4) then None
    else
      let avg_speed_kmh := mean sprint_speeds in
      let max_speed_kmh := quantile 9 10 sprint_speeds in
      let distance_m := ((avg_speed_kmh / (36 # 10)) * duration_s)%Q in
      Some {| frame_start := frame_start; frame_end := frame_end;
              mid_frame := mid_frame; duration_s := duration_s;
              distance_m := distance_m; avg_speed_kmh := avg_speed_kmh;
              max_speed_kmh := max_speed_kmh |}.

Definition candidates (fps : Z) (threshold_kmh : Q) (pdf : list SpeedRow)
  : list SprintCandidate :=
  omap (fun g => summarise fps g.2) (sprint_groups threshold_kmh pdf).

(** ** Sprint validator (detect_sprints, lines 109-114) *)

Definition rejected (c : SprintCandidate) : bool :=
  (Qltb (avg_speed_kmh c) (245 # 10) || Qltb 29 (avg_speed_kmh c))
  || (Qltb (max_speed_kmh c) 26 || Qltb 33 (max_speed_kmh c))
  || Qltb (distance_m c) 7.

Definition validate (c : SprintCandidate) : bool := negb (rejected c).

Definition player_sprints (fps : Z) (threshold_kmh : Q) (pdf : list SpeedRow)
  : list SprintCandidate :=
  filter (fun c => validate c = true) (candidates fps threshold_kmh pdf).

(** ** Position deltas (src/eda.py) and the per-match driver *)

(** One entry of a frame's [player_data] list, read with [player.get]. *)
Record PlayerDict := {
  pd_player_id : option Z;
  pd_x : option Q;
  pd_y : option Q;
}.

(** A row of the tracking frame.  [player_data] is [None] when the cell is
    not a list, and an entry is [None] when it is not a dict.  The
    [timestamp] and [period] columns are copied by the source and never read
    by the detector; they are left out. *)
Record TrackingRow := {
  t_frame : Z;
  t_player_data : option (list (option PlayerDict));
}.

Record PlayerFrame := {
  frame : Z;
  player_id : option Z;
  pos_x : option Q;
  pos_y : option Q;
}.

Definition explode_player_tracking (tracking_df : list TrackingRow)
  : list PlayerFrame :=
  flat_map (fun row =>
    match t_player_data row with
    | Some players =>
        flat_map (fun player =>
          match player with
          | Some d => [ {| frame := t_frame row; player_id := pd_player_id d;
                           pos_x := pd_x d; pos_y := pd_y d |} ]
          | None => []
          end) players
    | None => []
    end) tracking_df.

(** Sort keys.  A missing [player_id] sorts last ([na_position="last"]). *)
Definition player_id_leb (a b : option Z) : bool :=
  match a, b with
  | Some u, Some v => (u <=? v)%Z
  | Some _, None => true
  | None, Some _ => false
  | None, None => true
  end.

Definition frame_leb (a b : PlayerFrame) : bool := (frame a <=? frame b)%Z.

Definition player_frame_leb (a b : PlayerFrame) : bool :=
  if player_id_leb (player_id a) (player_id b)
  then if player_id_leb (player_id b) (player_id a)
       then (frame a <=? frame b)%Z
       else true
  else false.

(** [Series.diff()]: the first cell is missing. *)
Fixpoint diff_from (prev : option Q) (l : list (option Q)) : list (option Q) :=
  match l with
  | [] => []
  | c :: t =>
      (match c, prev with
       | Some v, Some u => Some (v - u)%Q
       | _, _ => None
       end) :: diff_from c t
  end.

Definition diff (l : list (option Q)) : list (option Q) := diff_from None l.

Record Sprint := {
  match_id : string;
  sprint_player_id : Z;
  sprint_run : SprintCandidate;
  sprint_id : Z;
}.

Section Detect.
  (** [np.sqrt] on finite non-negative values. *)
Variable np_sqrt : Q → Q.

Definition euclid (dx dy : option Q) : option Q :=
    match dx, dy with
    | Some a, Some b => Some (np_sqrt (a * a + b * b)%Q)
    | _, _ => None
    end.

Definition calculate_distances (player_tracking : list PlayerFrame)
    : list (option Q) :=
    let sorted_df := sort_values frame_leb player_tracking in
    let dx := diff (map pos_x sorted_df) in
    let dy := diff (map pos_y sorted_df) in
    zip_with euclid dx dy.

  (** The body of the loop over players.  [pdf] is in frame order, the
      sort inside [calculate_distances] keeps it so, and the assignment
      [pdf["speed_smooth"] = speeds_smooth] pairs rows and values by
      position. *)
Definition detect_player (fps : Z) (threshold_kmh : Q)
      (player_frames : list PlayerFrame) (pid : Z) : list SprintCandidate :=
    let pdf := filter (fun r => player_id r = Some pid) player_frames in
    if length pdf <? smooth_window then []
    else
      let distances := calculate_distances pdf in
      let speeds_smooth := speed_smooth fps distances in
      player_sprints fps threshold_kmh (zip (map frame pdf) speeds_smooth).

  (** The loop over [player_frames["player_id"].dropna().unique()], on the
      frame already sorted by player and frame. *)
Definition sprints_list (fps : Z) (threshold_kmh : Q)
      (player_frames : list PlayerFrame) : list (Z * SprintCandidate) :=
    flat_map (fun pid =>
                map (pair pid) (detect_player fps threshold_kmh player_frames pid))
             (unique (omap player_id player_frames)).

  (** [sprints_df["sprint_id"] = range(len(sprints_df))] *)
Definition assign_sprint_id (match_id : string) (l : list (Z * SprintCandidate))
    : list Sprint :=
    imap (fun i pc => {| match_id := match_id; sprint_player_id := pc.1;
                         sprint_run := pc.2; sprint_id := Z.of_nat i |}) l.

  (** The result is [None] when the source raises: a tracking frame that
      explodes to no row at all gives a frame without columns, and sorting
      it by ["player_id", "frame"] is a KeyError. *)
Definition detect_sprints (tracking_df : list TrackingRow) (match_id : string)
      (fps : Z) (threshold_kmh : Q) : option (list Sprint) :=
    match explode_player_tracking tracking_df with
    | [] => None
    | r :: rs =>
        let player_frames := sort_values player_frame_leb (r :: rs) in
        Some (assign_sprint_id match_id
                (sprints_list fps threshold_kmh player_frames))
    end.
End Detect.

(** ** Context enricher (metrics.py, lines 135-220) *)

(** A cell of an object-typed row.  [VNone] stands for both None and NaN,
    which pandas treats alike as missing. *)
Inductive value :=
| VNone
| VBool (b : bool)
| VInt (z : Z)
| VFloat (q : Q)
| VStr (s : string).

(** A row of a frame read by column name ([row["col"]], [row.get("col")]).
    A frame is the list of its rows; a column exists when the rows carry
    its key. *)
Abbreviation row := (gmap string value).

Definition num_of (v : value) : option Q :=
  match v with
  | VBool b => Some (if b then 1%Q else 0%Q)
  | VInt z => Some (inject_Z z)
  | VFloat q => Some q
  | VNone | VStr _ => None
  end.

(** Elementwise [==]: a missing cell equals nothing, itself included. *)
Definition pd_eq (a b : value) : bool :=
  match a, b with
  | VNone, _ | _, VNone => false
  | VStr s, VStr t => String.eqb s t
  | VStr _, _ | _, VStr _ => false
  | _, _ =>
      match num_of a, num_of b with
      | Some u, Some v => Qeq_bool u v
      | _, _ => false
      end
  end.

(** Elementwise [<=] on numeric cells: False next to a missing cell, and
    [None] (the comparison is not defined on numbers) next to a string. *)
Definition pd_le (a b : value) : option bool :=
  match a, b with
  | VStr _, _ | _, VStr _ => None
  | VNone, _ | _, VNone => Some false
  | _, _ =>
      match num_of a, num_of b with
      | Some u, Some v => Some (Qle_bool u v)
      | _, _ => Some false
      end
  end.

(** One cell of the mask
    [(match_id == m) & (frame_start <= mid_frame) & (frame_end >= mid_frame)];
    [None] is a KeyError or TypeError. *)
Definition contains_mid (m mid : value) (phase : row) : option bool :=
  pm ← phase !! "match_id";
  fs ← phase !! "frame_start";
  fe ← phase !! "frame_end";
  lo ← pd_le fs mid;
  hi ← pd_le mid fe;
  Some (pd_eq pm m && lo && hi).

Definition phase_match (phases_df : list row) (m mid : value) : option (list row) :=
  mask ← mapM (contains_mid m mid) phases_df;
  Some (map snd (filter (fun bp => bp.1 = true) (zip mask phases_df))).

Definition no_phase (sprint : row) : row :=
  <["channel_end" := VNone]> (
  <["third_end" := VNone]> (
  <["possession_lead_to_goal" := VBool false]> (
  <["possession_lead_to_shot" := VBool false]> (
  <["team_in_possession_id" := VNone]> (
  <["team_out_of_possession_phase_type" := VNone]> (
  <["team_in_possession_phase_type" := VNone]> sprint)))))).

Definition with_phase (sprint phase : row) : option row :=
  ip ← phase !! "team_in_possession_phase_type";
  op ← phase !! "team_out_of_possession_phase_type";
  tid ← phase !! "team_in_possession_id";
  Some (
  <["channel_end" := default VNone (phase !! "channel_end")]> (
  <["third_end" := default VNone (phase !! "third_end")]> (
  <["possession_lead_to_goal" :=
      default (VBool false) (phase !! "team_possession_lead_to_goal")]> (
  <["possession_lead_to_shot" :=
      default (VBool false) (phase !! "team_possession_lead_to_shot")]> (
  <["team_in_possession_id" := tid]> (
  <["team_out_of_possession_phase_type" := op]> (
  <["team_in_possession_phase_type" := ip]> sprint))))))).

(** The body of the loop over sprints. *)
Definition enrich_sprint (phases_df : list row) (sprint : row) : option row :=
  m ← sprint !! "match_id";
  mid ← sprint !! "mid_frame";
  pm ← phase_match phases_df m mid;
  match pm with
  | [] => Some (no_phase sprint)
  | phase :: _ => with_phase sprint phase
  end.

Definition high_value_phases : list string :=
  ["create"; "finish"; "quick_break"; "transition"].

Definition isin (v : value) (l : list string) : bool :=
  match v with
  | VStr s => bool_decide (s ∈ l)
  | _ => false
  end.

Definition add_high_value (r : row) : row :=
  <["is_high_value_phase" :=
      VBool (isin (default VNone (r !! "team_in_possession_phase_type"))
                  high_value_phases)]> r.

(** With no sprint at all the list of dicts gives a frame without columns,
    and reading its [team_in_possession_phase_type] column is a KeyError. *)
Definition enrich_sprints_with_phases (sprints_df phases_df : list row)
  : option (list row) :=
  enriched_sprints ← mapM (enrich_sprint phases_df) sprints_df;
  match enriched_sprints with
  | [] => None
  | _ :: _ => Some (map add_high_value enriched_sprints)
  end.

Definition add_flags (r : row) : option row :=
  team ← r !! "team_id";
  tip ← r !! "team_in_possession_id";
  third ← r !! "third_end";
  let attacking := pd_eq team tip in
  Some (
  <["in_attacking_third" := VBool (pd_eq third (VStr "attacking_third"))]> (
  <["is_defensive_sprint" := VBool (negb attacking)]> (
  <["is_attacking_sprint" := VBool attacking]> r))).

Definition add_sprint_context_flags (sprints_df : list row) : option (list row) :=
  mapM add_flags sprints_df.

(** The columns [detect_sprints] gives a sprint row, and the row itself. *)
Definition candidate_to_row (c : SprintCandidate) : row :=
  <["max_sprint_speed_kmh" := VFloat (max_speed_kmh c)]> (
  <["avg_sprint_speed_kmh" := VFloat (avg_speed_kmh c)]> (
  <["distance_m" := VFloat (distance_m c)]> (
  <["duration_s" := VFloat (duration_s c)]> (
  <["mid_frame" := VInt (mid_frame c)]> (
  <["frame_end" := VInt (frame_end c)]> (
  <["frame_start" := VInt (frame_start c)]> ∅)))))).

Definition sprint_to_row (s : Sprint) : row :=
  <["sprint_id" := VInt (sprint_id s)]> (
  <["player_id" := VInt (sprint_player_id s)]> (
  <["match_id" := VStr (match_id s)]> (candidate_to_row (sprint_run s)))).

(** The columns the phase join writes. *)
Definition phase_columns : list string :=
  ["team_in_possession_phase_type"; "team_out_of_possession_phase_type";
   "team_in_possession_id"; "possession_lead_to_shot";
   "possession_lead_to_goal"; "third_end"; "channel_end"].

(** The validator bounds as the specification words them. *)
Definition within_bounds (c : SprintCandidate) : Prop :=
  ((245 # 10) <= avg_speed_kmh c)%Q ∧ (avg_speed_kmh c <= 29)%Q
  ∧ (26 <= max_speed_kmh c)%Q ∧ (max_speed_kmh c <= 33)%Q
  ∧ (7 <= distance_m c)%Q.

(** Reading the join off the table: the phase rows whose frame range holds
    the sprint's [mid_frame], and the order of two rows on [frame_start]. *)
Definition contains (m mid : value) (phase : row) : Prop :=
  contains_mid m mid phase = Some true.

Definition start_le (p q : row) : Prop :=
  ∃ a b, p !! "frame_start" = Some a ∧ q !! "frame_start" = Some b
         ∧ pd_le a b = Some true.

(** The join the specification describes: the sprint is enriched from a
    phase row that holds its [mid_frame] and has the lowest [frame_start]
    of all such rows. *)
Definition joins_lowest_frame_start (phases_df : list row) (sprint : row) : Prop :=
  ∃ m mid p,
    sprint !! "match_id" = Some m ∧ sprint !! "mid_frame" = Some mid
    ∧ p ∈ phases_df ∧ contains m mid p
    ∧ (∀ q, q ∈ phases_df → contains m mid q → start_le p q)
    ∧ enrich_sprint phases_df sprint = with_phase sprint p.


(** Sample rows. *)
Definition sample_phase (fs fe team : Z) (shot : string) : row :=
  <[shot := VBool true]> (
  <["channel_end" := VStr "center"]> (
  <["third_end" := VStr "attacking_third"]> (
  <["team_in_possession_id" := VInt team]> (
  <["team_out_of_possession_phase_type" := VStr "low_block"]> (
  <["team_in_possession_phase_type" := VStr "create"]> (
  <["frame_end" := VInt fe]> (
  <["frame_start" := VInt fs]> (
  <["match_id" := VStr "m1"]> ∅)))))))).

Definition sample_candidate : SprintCandidate :=
  {| frame_start := 14; frame_end := 25; mid_frame := 20;
     duration_s := 12 # 10; distance_m := 9; avg_speed_kmh := 27;
     max_speed_kmh := 28 |}.

Definition sample_sprint : Sprint :=
  {| match_id := "m1"; sprint_player_id := 7;
     sprint_run := sample_candidate; sprint_id := 0 |}.

#[global] Instance contains_dec m mid phase : Decision (contains m mid phase).
Proof. unfold contains. apply _. Defined.

(** Rows the join can read: the mask columns are there and the frame
    bounds are numbers or missing, and a phase row has the three columns
    read with [phase[...]]. *)
Definition not_str (v : value) : Prop :=
  match v with VStr _ => False | _ => True end.

Definition phase_row_ok (p : row) : Prop :=
  is_Some (p !! "match_id")
  ∧ (∃ fs, p !! "frame_start" = Some fs ∧ not_str fs)
  ∧ (∃ fe, p !! "frame_end" = Some fe ∧ not_str fe)
  ∧ is_Some (p !! "team_in_possession_phase_type")
  ∧ is_Some (p !! "team_out_of_possession_phase_type")
  ∧ is_Some (p !! "team_in_possession_id").

Definition sprint_row_ok (s : row) : Prop :=
  is_Some (s !! "match_id") ∧ ∃ mid, s !! "mid_frame" = Some mid ∧ not_str mid.

(** What the metadata merge between the two passes does to a row, as far
    as the flags go: it supplies [team_id] and keeps the join's columns. *)
Definition joined_with_metadata (e j : row) : Prop :=
  is_Some (j !! "team_id")
  ∧ ∀ k, k ∈ "is_high_value_phase" :: phase_columns → j !! k = e !! k.

(** The record of a sprint that met no phase: null phase fields, false
    outcome flags, and the sprint's own fields as they were. *)
Definition null_phase_record (sprint e : row) : Prop :=
  e !! "team_in_possession_phase_type" = Some VNone
  ∧ e !! "team_out_of_possession_phase_type" = Some VNone
  ∧ e !! "team_in_possession_id" = Some VNone
  ∧ e !! "third_end" = Some VNone
  ∧ e !! "channel_end" = Some VNone
  ∧ e !! "possession_lead_to_shot" = Some (VBool false)
  ∧ e !! "possession_lead_to_goal" = Some (VBool false)
  ∧ ∀ k, is_Some (sprint !! k) → e !! k = sprint !! k.

(** The flags of a sprint classified as defensive and out of context. *)
Definition defensive_flags (f : row) : Prop :=
  f !! "team_in_possession_id" = Some VNone
  ∧ f !! "is_attacking_sprint" = Some (VBool false)
  ∧ f !! "is_defensive_sprint" = Some (VBool true)
  ∧ f !! "is_high_value_phase" = Some (VBool false)
  ∧ f !! "in_attacking_third" = Some (VBool false).

Definition sample_sprints_df : list row := [sprint_to_row sample_sprint].

(** A phase table whose only row ends before, or starts after, frame 20. *)
Definition sample_phases_far : list row :=
  [sample_phase 30 40 1 "team_possession_lead_to_shot"].

(** Two overlapping phase rows that both hold frame 20; the row that
    starts later comes first in the table. *)
Definition sample_phases_overlap : list row :=
  [sample_phase 10 30 1 "team_possession_lead_to_shot";
   sample_phase 5 25 2 "team_possession_lead_to_shot"].


Definition sample_phases_sorted : list row :=
  [sample_phase 5 25 2 "team_possession_lead_to_shot";
   sample_phase 10 30 1 "team_possession_lead_to_shot"].


(** A keyed frame laid out block by block: each block is a key and the
    rows that carry it. *)
Definition flatten_blocks {A} (kbs : list (nat * list A)) : list (nat * A) :=
  kbs ≫= λ kb, pair kb.1 <$> kb.2.

(** A smoothed speed read against the threshold, as the specification
    words it: at or above it, or below it or missing. *)
Definition at_or_above (threshold_kmh : Q) (s : option Q) : Prop :=
  ∃ v, s = Some v ∧ (threshold_kmh <= v)%Q.

Definition below_or_missing (threshold_kmh : Q) (s : option Q) : Prop :=
  match s with
  | Some v => (v < threshold_kmh)%Q
  | None => True
  end.

(** Frames numbered consecutively from [f0]. *)
Definition consecutive_from (f0 : Z) (frames : list Z) : Prop :=
  frames = (λ i, f0 + Z.of_nat i)%Z <$> seq 0 (length frames).

(** A short track: two slow rows, six rows at 27 km/h, one slow row. *)
Definition sample_pdf : list SpeedRow :=
  [(48%Z, Some 10%Q); (49%Z, None); (50%Z, Some 27%Q); (51%Z, Some 27%Q);
   (52%Z, Some 27%Q); (53%Z, Some 27%Q); (54%Z, Some 27%Q); (55%Z, Some 27%Q);
   (56%Z, Some 3%Q)].




(** A square root that is exact on squares of rationals, for running the
    detector on sample tracks. *)
Definition sample_sqrt (q : Q) : Q := (Z.sqrt (Qnum q) # Pos.sqrt (Qden q)).

(** Two players over 40 frames.  Player 7 stands for ten frames, runs
    0.75 m per frame (27 km/h) for twenty frames and stands again; player
    9 stands throughout. *)
Definition sample_x (i : nat) : Q :=
  if i <? 10 then 0 else if i <? 30 then (3 * (Z.of_nat i - 9) # 4) else (60 # 4).

Definition sample_tracking : list TrackingRow :=
  (λ i, {| t_frame := Z.of_nat i;
           t_player_data :=
             Some [Some {| pd_player_id := Some 9%Z; pd_x := Some 5%Q;
                           pd_y := Some 5%Q |};
                   Some {| pd_player_id := Some 7%Z; pd_x := Some (sample_x i);
                           pd_y := Some 0%Q |}] |}) <$> seq 0 40.

(** The key of a player row: who, and at which frame. *)
Definition row_key (r : PlayerFrame) : option Z * Z := (player_id r, frame r).

(** Two frames of one player, and the same two frames supplied in the
    other order. *)
Definition sample_two_rows : list TrackingRow :=
  [ {| t_frame := 0;
       t_player_data := Some [Some {| pd_player_id := Some 7%Z;
                                      pd_x := Some 0%Q; pd_y := Some 0%Q |}] |};
    {| t_frame := 1;
       t_player_data := Some [Some {| pd_player_id := Some 7%Z;
                                      pd_x := Some 1%Q; pd_y := Some 0%Q |}] |} ].

Definition sample_two_rows_swapped : list TrackingRow := reverse sample_two_rows.

(** The sprints of the sample track. *)
Definition sample_sprints : list Sprint :=
  default [] (detect_sprints sample_sqrt sample_tracking "m1" 10 (245 # 10)).

(** The sample track with a third player, number 3, who is seen in five
    frames only. *)
Definition sample_mixed_tracking : list TrackingRow :=
  sample_tracking
  ++ ((λ i, {| t_frame := Z.of_nat i;
               t_player_data :=
                 Some [Some {| pd_player_id := Some 3%Z; pd_x := Some 1%Q;
                               pd_y := Some 1%Q |}] |}) <$> seq 0 5).

Definition sample_mixed_sprints : list Sprint :=
  default [] (detect_sprints sample_sqrt sample_mixed_tracking "m1" 10 (245 # 10)).

(** A speed cell that is present lies in the interval [lo, hi]. *)
Definition cell_within (lo hi : Q) (c : option Q) : Prop :=
  ∀ v, c = Some v → (lo <= v <= hi)%Q.

(** The maximal runs of consecutive sprinting rows of a track, read off
    row by row; [cur] is the run that is still open. *)
Definition close_run (cur : list SpeedRow) : list (list SpeedRow) :=
  match cur with
  | [] => []
  | _ :: _ => [cur]
  end.

Fixpoint maximal_runs (th : Q) (cur pdf : list SpeedRow) : list (list SpeedRow) :=
  match pdf with
  | [] => close_run cur
  | r :: t =>
      if is_sprinting th r.2 then maximal_runs th (cur ++ [r]) t
      else close_run cur ++ maximal_runs th [] t
  end.

(** Player 7 runs twice: frames 10..29 and 50..69 at 0.75 m per frame,
    standing before, between and after. *)
Definition sample_double_x (i : nat) : Q :=
  if i <? 10 then 0
  else if i <? 30 then (3 * (Z.of_nat i - 9) # 4)
  else if i <? 50 then (60 # 4)
  else if i <? 70 then (60 + 3 * (Z.of_nat i - 49) # 4)
  else (120 # 4).

Definition sample_double_tracking : list TrackingRow :=
  (λ i, {| t_frame := Z.of_nat i;
           t_player_data :=
             Some [Some {| pd_player_id := Some 7%Z;
                           pd_x := Some (sample_double_x i);
                           pd_y := Some 0%Q |}] |}) <$> seq 0 80.

Definition sample_double_sprints : list Sprint :=
  default [] (detect_sprints sample_sqrt sample_double_tracking "m1" 10 (245 # 10)).

(** An enriched row after the metadata merge: the player's team is the
    team in possession, and the phase ends in the attacking third. *)
Definition sample_flag_row : row :=
  <["team_id" := VInt 2]> (
  <["team_in_possession_id" := VInt 2]> (
  <["third_end" := VStr "attacking_third"]> (sprint_to_row sample_sprint))).

(** ** Speeds and player summaries (src/eda.py) *)

Definition TRACKING_FPS : Z := 10.
Definition METERS_TO_KM : Q := 1000.
Definition SECONDS_TO_HOURS : Q := 3600.

(** A row of the exploded frame together with its [is_detected] cell,
    which the summaries read and the detector does not. *)
Record TrackedFrame := {
  tf_row : PlayerFrame;
  is_detected : option bool;
}.

(** The dict [get_player_summary] returns. *)
Module Summary.
Record t := {
  player_id : Z;
  distance_km : Q;
  avg_speed_kmh : Q;
  max_speed_kmh : Q;
  frames_tracked : nat;
  minutes_played : Q;
}.
End Summary.

(** The part of the match metadata that [summarise_match_distance] reads.
    A [None] stands for a value the truth test of the source rejects: a
    missing key, a null or an empty dict; [minutes_played] is read with
    [get] and may be missing. *)
Module Meta.
Record Total := { minutes_played : option Q }.
Record PlayingTime := { total : option Total }.
Record Player := { id : Z; playing_time : option PlayingTime }.
Record Match := { players : option (list Player) }.
End Meta.

(** A row of the frame [summarise_match_distance] returns. *)
Module DistanceRow.
Record t := {
  player_id : Z;
  total_distance_m_match : Q;
  total_distance_km_match : Q;
  meters_per_minute_match : option Q;
  minutes_match : Q;
}.
End DistanceRow.

(** [Series[(s > lo) & (s < hi)]]: the cells strictly between the bounds;
    a missing cell compares False and is dropped. *)
Definition strictly_between (lo hi : Q) (c : option Q) : bool :=
  match c with
  | Some v => Qltb lo v && Qltb v hi
  | None => false
  end.

(** The rational [qnum / qden] stands for the float [quantile].  The
    result is [None] when pandas raises: a window of 0 is below
    [min_periods = 1], and a quantile outside [0, 1] is refused. *)
Definition clean_max_speed_kmh (speeds : option (list (option Q)))
    (window : nat) (upper_cap : Q) (qnum qden : nat) : option Q :=
  match speeds with
  | None => Some 0%Q
  | Some speeds =>
      let valid := Some <$> dropna speeds in
      let valid := filter (λ c, strictly_between 0 upper_cap c = true) valid in
      match valid with
      | [] => Some 0%Q
      | _ :: _ =>
          if window =? 0 then None
          else
            let smoothed := rolling median window valid in
            if (qden =? 0) || (qden <? qnum) then None
            else Some (quantile qnum qden (dropna smoothed))
      end
  end.

(** The [player_id] cell of a row. *)
Definition row_player_id (r : TrackedFrame) : option Z := player_id (tf_row r).

(** [is_detected.fillna(False).sum()] *)
Definition count_detected (rows : list TrackedFrame) : nat :=
  length (filter (λ r, is_detected r = Some true) rows).

(** [frames / (fps * 60)], for a positive frame rate. *)
Definition tracked_minutes (frames : nat) (fps : positive) : Q :=
  (inject_Z (Z.of_nat frames) / inject_Z (Z.pos fps * 60))%Q.

(** The dict comprehension over [match_meta.get("players", [])]: players
    without a [playing_time] or without a [total] are left out, and a later
    entry for an id replaces an earlier one. *)
Definition add_minutes (acc : gmap Z (option Q)) (p : Meta.Player)
  : gmap Z (option Q) :=
  match Meta.playing_time p with
  | Some pt =>
      match Meta.total pt with
      | Some tot => <[Meta.id p := Meta.minutes_played tot]> acc
      | None => acc
      end
  | None => acc
  end.

Definition minutes_played_lookup (match_meta : option Meta.Match)
  : gmap Z (option Q) :=
  match match_meta with
  | None => ∅
  | Some meta => foldl add_minutes ∅ (default [] (Meta.players meta))
  end.

Section Eda.
Variable np_sqrt : Q → Q.

(** [1.0 / fps] raises ZeroDivisionError for [fps = 0]. *)
Definition calculate_speeds (player_tracking : list PlayerFrame) (fps : Z)
  : option (list (option Q)) :=
  let distances := calculate_distances np_sqrt player_tracking in
  if (fps =? 0)%Z then None
  else
    let time_delta := (1 / inject_Z fps)%Q in
    let speeds_ms := map (fmap (λ d, (d / time_delta)%Q)) distances in
    Some (map (fmap (λ v, (v * (SECONDS_TO_HOURS / METERS_TO_KM))%Q)) speeds_ms).

(** The speeds are computed at the module's [TRACKING_FPS], not at the
    [fps] argument, which only enters the minutes derived from tracking. *)
Definition get_player_summary (player_tracking : list TrackedFrame)
    (player_id : Z) (minutes_played_lookup : option (gmap Z Q)) (fps : positive)
  : option Summary.t :=
  let player_data :=
    filter (λ r, row_player_id r = Some player_id) player_tracking in
  if length player_data =? 0 then
    Some {| Summary.player_id := player_id; Summary.distance_km := 0;
            Summary.avg_speed_kmh := 0; Summary.max_speed_kmh := 0;
            Summary.frames_tracked := 0; Summary.minutes_played := 0 |}
  else
    let distances := calculate_distances np_sqrt (tf_row <$> player_data) in
    speeds ← calculate_speeds (tf_row <$> player_data) TRACKING_FPS;
    let valid_speeds := filter (λ c, strictly_between 0 40 c = true) speeds in
    let minutes_played :=
      match minutes_played_lookup ≫= (λ m, m !! player_id) with
      | Some minutes => minutes
      | None => tracked_minutes (count_detected player_data) fps
      end in
    let total_distance_km := (Qsum (dropna distances) / METERS_TO_KM)%Q in
    let hours_played := (minutes_played / 60)%Q in
    let avg_speed_kmh :=
      if Qltb 0 hours_played then (total_distance_km / hours_played)%Q
      else 0%Q in
    max_speed ← clean_max_speed_kmh (Some valid_speeds) 3 40 99 100;
    Some {| Summary.player_id := player_id;
            Summary.distance_km := total_distance_km;
            Summary.avg_speed_kmh := avg_speed_kmh;
            Summary.max_speed_kmh := max_speed;
            Summary.frames_tracked := length player_data;
            Summary.minutes_played := minutes_played |}.

(** The body of the loop over [player_ids]; [None] is the [continue]. *)
Definition match_distance_row (player_tracking : list TrackedFrame)
    (lookup : gmap Z (option Q)) (fps : positive) (pid : Z)
  : option DistanceRow.t :=
  let df_player :=
    filter (λ r, row_player_id r = Some pid) player_tracking in
  match df_player with
  | [] => None
  | _ :: _ =>
      let dists := calculate_distances np_sqrt (tf_row <$> df_player) in
      let total_distance_m := Qsum (dropna dists) in
      let minutes_match :=
        match mjoin (lookup !! pid) with
        | Some minutes => minutes
        | None => tracked_minutes (count_detected df_player) fps
        end in
      let meters_per_min :=
        if Qltb 0 minutes_match then Some (total_distance_m / minutes_match)%Q
        else None in
      Some {| DistanceRow.player_id := pid;
              DistanceRow.total_distance_m_match := total_distance_m;
              DistanceRow.total_distance_km_match := (total_distance_m / 1000)%Q;
              DistanceRow.meters_per_minute_match := meters_per_min;
              DistanceRow.minutes_match := minutes_match |}
  end.

Definition summarise_match_distance (player_tracking : list TrackedFrame)
    (player_ids : list Z) (match_meta : option Meta.Match) (fps : positive)
  : list DistanceRow.t :=
  omap (match_distance_row player_tracking (minutes_played_lookup match_meta) fps)
       player_ids.
End Eda.

(** The sample track as the summaries read it, every row detected. *)
Definition sample_tracked : list TrackedFrame :=
  (λ r, {| tf_row := r; is_detected := Some true |})
    <$> explode_player_tracking sample_tracking.

(** Raw speeds with a gap and a spike above the 40 km/h cap. *)
Definition sample_speeds : list (option Q) :=
  [None; Some 10%Q; Some 50%Q; Some 20%Q; None; Some 30%Q; Some 0%Q].

(** Metadata that lists player 7 twice, the later entry with 45 minutes,
    and player 9 without a playing time. *)
Definition sample_meta : Meta.Match :=
  {| Meta.players :=
       Some [ {| Meta.id := 7;
                 Meta.playing_time :=
                   Some {| Meta.total :=
                             Some {| Meta.minutes_played := Some 90%Q |} |} |};
              {| Meta.id := 9; Meta.playing_time := None |};
              {| Meta.id := 7;
                 Meta.playing_time :=
                   Some {| Meta.total :=
                             Some {| Meta.minutes_played := Some 45%Q |} |} |} ] |}.

(** A metadata entry the comprehension keeps, and the minutes it gives. *)
Definition listed_minutes (p : Meta.Player) : option (option Q) :=
  pt ← Meta.playing_time p; tot ← Meta.total pt; Some (Meta.minutes_played tot).

(** A phase row of match [m]: the first conjunct of the join mask. *)
Definition of_match (m : value) (p : row) : bool :=
  match p !! "match_id" with
  | Some pm => pd_eq pm m
  | None => false
  end.

(** A phase row of another match, spanning every frame of the samples. *)
Definition sample_other_match_phase : row :=
  <["match_id" := VStr "m2"]>
    (sample_phase 0 100 9 "team_possession_lead_to_shot").

(** * Properties *)

(** ** Rational comparisons *)

Lemma Qltb_lt (a b : Q) : Qltb a b = true ↔ (a < b)%Q.
Proof.
  unfold Qltb. rewrite negb_true_iff.
  split.
  - intros H. apply Qnot_le_lt. intros Hle. apply Qle_bool_iff in Hle. congruence.
  - intros H. destruct (Qle_bool b a) eqn:E; [|done].
    apply Qle_bool_iff in E. exfalso. exact (Qlt_not_le _ _ H E).
Qed.

Lemma Qltb_ge (a b : Q) : Qltb a b = false ↔ (b <= a)%Q.
Proof.
  unfold Qltb. rewrite negb_false_iff. apply Qle_bool_iff.
Qed.


(** ** Sprint validator *)

Lemma validate_within_bounds (c : SprintCandidate) :
  validate c = true ↔ within_bounds c.
Proof.
  unfold validate, rejected, within_bounds.
  rewrite negb_true_iff, !orb_false_iff, !Qltb_ge. tauto.
Qed.

(** C3. A candidate is promoted to a sprint exactly when
    24.5 <= avg_speed_kmh <= 29.0, 26.0 <= max_speed_kmh <= 33.0 and
    distance_m >= 7.0 all hold; the sprints of a player are the candidates
    within these bounds, nothing else lets a candidate through; and a
    candidate whose average speed is 30.0 is rejected whatever its other
    fields are. *)
Theorem validator_accepts_iff_all_bounds :
  (∀ c, validate c = true ↔ within_bounds c)
  ∧ (∀ fps threshold_kmh pdf c,
        c ∈ player_sprints fps threshold_kmh pdf
        ↔ c ∈ candidates fps threshold_kmh pdf ∧ within_bounds c)
  ∧ (∀ fs fe mid dur dist mx,
        validate {| frame_start := fs; frame_end := fe; mid_frame := mid;
                    duration_s := dur; distance_m := dist;
                    avg_speed_kmh := 30; max_speed_kmh := mx |} = false).
Proof.
  split; [exact validate_within_bounds|]. split.
  - intros fps th pdf c. unfold player_sprints.
    rewrite list_elem_of_filter, validate_within_bounds. tauto.
  - intros. reflexivity.
Qed.

(** ** Context enricher *)

Lemma mask_selects (m mid : value) (phases_df : list row) (mask : list bool) :
  Forall2 (λ p b, contains_mid m mid p = Some b) phases_df mask →
  map snd (filter (λ bp : bool * row, bp.1 = true) (zip mask phases_df))
  = filter (contains m mid) phases_df.
Proof.
  induction 1 as [|p b ps bs Hb _ IH]; [done|].
  cbn [zip zip_with]. rewrite !filter_cons. cbn [fst].
  destruct (decide (b = true)) as [->|Hb']; destruct (decide (contains m mid p)) as [Hc|Hc];
    unfold contains in Hc; cbn; rewrite ?IH; try done; try congruence.
Qed.

Lemma phase_match_filter (phases_df : list row) (m mid : value) :
  Forall (λ p, is_Some (contains_mid m mid p)) phases_df →
  phase_match phases_df m mid = Some (filter (contains m mid) phases_df).
Proof.
  intros Hok. unfold phase_match.
  destruct (mapM_is_Some_2 (contains_mid m mid) phases_df) as [mask Hmask].
  { eapply Forall_impl; [exact Hok|]. by intros p. }
  rewrite Hmask. cbn. f_equal. apply mask_selects. by apply mapM_Some.
Qed.

Lemma phase_match_none (phases_df : list row) (m mid : value) :
  Forall (λ p, contains_mid m mid p = Some false) phases_df →
  phase_match phases_df m mid = Some [].
Proof.
  intros Hno. rewrite phase_match_filter.
  - f_equal. induction Hno as [|p ps Hp _ IH]; [done|].
    rewrite filter_cons. case_decide as Hc; [|done].
    unfold contains in Hc. congruence.
  - eapply Forall_impl; [exact Hno|]. intros p ->. by eexists.
Qed.

Lemma no_phase_other (sprint : row) (k : string) :
  k ∉ phase_columns → no_phase sprint !! k = sprint !! k.
Proof.
  unfold phase_columns, no_phase. intros Hk.
  rewrite !not_elem_of_cons in Hk.
  destruct Hk as (?&?&?&?&?&?&?&_).
  by rewrite !lookup_insert_ne by done.
Qed.

Lemma with_phase_other (sprint phase e : row) (k : string) :
  with_phase sprint phase = Some e → k ∉ phase_columns → e !! k = sprint !! k.
Proof.
  unfold phase_columns, with_phase. intros He Hk.
  rewrite !not_elem_of_cons in Hk.
  destruct (phase !! "team_in_possession_phase_type"); [|done].
  destruct (phase !! "team_out_of_possession_phase_type"); [|done].
  destruct (phase !! "team_in_possession_id"); [|done].
  cbn in He. injection He as <-.
  destruct Hk as (?&?&?&?&?&?&?&_).
  by rewrite !lookup_insert_ne by done.
Qed.

Lemma add_high_value_other (r : row) (k : string) :
  k ≠ "is_high_value_phase" → add_high_value r !! k = r !! k.
Proof. intros Hk. unfold add_high_value. by rewrite lookup_insert_ne. Qed.

Lemma sprint_to_row_no_phase_column (s : Sprint) (k : string) :
  k ∈ "is_high_value_phase" :: phase_columns → sprint_to_row s !! k = None.
Proof.
  unfold phase_columns. rewrite !elem_of_cons, elem_of_nil.
  intros [-> | [-> | [-> | [-> | [-> | [-> | [-> | [-> | []]]]]]]]]; reflexivity.
Qed.

Lemma pd_le_total (a b : value) : not_str a → not_str b → is_Some (pd_le a b).
Proof.
  destruct a, b; cbn; try done; intros _ _; by eexists.
Qed.

Lemma contains_mid_total (m mid : value) (p : row) :
  phase_row_ok p → not_str mid → is_Some (contains_mid m mid p).
Proof.
  intros ([pm Hpm] & (fs & Hfs & Hfsn) & (fe & Hfe & Hfen) & _) Hmid.
  unfold contains_mid. rewrite Hpm, Hfs, Hfe. cbn.
  destruct (pd_le_total fs mid Hfsn Hmid) as [lo ->].
  destruct (pd_le_total mid fe Hmid Hfen) as [hi ->].
  cbn. by eexists.
Qed.

Lemma with_phase_total (sprint p : row) :
  phase_row_ok p → is_Some (with_phase sprint p).
Proof.
  intros (_ & _ & _ & [a Ha] & [b Hb] & [c Hc]).
  unfold with_phase. rewrite Ha, Hb, Hc. cbn. by eexists.
Qed.

Lemma enrich_sprint_total (phases_df : list row) (sprint : row) :
  Forall phase_row_ok phases_df → sprint_row_ok sprint →
  is_Some (enrich_sprint phases_df sprint).
Proof.
  intros Hph ([m Hm] & mid & Hmid & Hn). unfold enrich_sprint.
  rewrite Hm, Hmid. cbn. rewrite phase_match_filter.
  - cbn. destruct (filter _ _) as [|p ps] eqn:E; [by eexists|].
    apply with_phase_total.
    assert (p ∈ filter (contains m mid) phases_df) as Hp by (rewrite E; left).
    apply list_elem_of_filter in Hp as [_ Hp].
    by eapply Forall_forall in Hph.
  - eapply Forall_impl; [exact Hph|]. intros p Hp. by apply contains_mid_total.
Qed.

Lemma enrich_rows (sprints_df phases_df out : list row) :
  enrich_sprints_with_phases sprints_df phases_df = Some out →
  Forall2 (λ s o, ∃ e, enrich_sprint phases_df s = Some e ∧ o = add_high_value e)
          sprints_df out.
Proof.
  unfold enrich_sprints_with_phases.
  destruct (mapM _ _) as [es|] eqn:E; [|done]. cbn.
  destruct es as [|e es]; [done|]. intros [= <-].
  apply mapM_Some in E.
  change (Forall2 (λ s o, ∃ e0, enrich_sprint phases_df s = Some e0
                                ∧ o = add_high_value e0)
                  sprints_df (add_high_value <$> (e :: es))).
  apply Forall2_fmap_r. eapply Forall2_impl; [exact E|]. cbn. eauto.
Qed.

Lemma enrich_total (sprints_df phases_df : list row) :
  sprints_df ≠ [] → Forall sprint_row_ok sprints_df →
  Forall phase_row_ok phases_df →
  ∃ out, enrich_sprints_with_phases sprints_df phases_df = Some out
         ∧ length out = length sprints_df.
Proof.
  intros Hne Hs Hp. unfold enrich_sprints_with_phases.
  destruct (mapM_is_Some_2 (enrich_sprint phases_df) sprints_df) as [es Hes].
  { eapply Forall_impl; [exact Hs|]. intros s Hok. by apply enrich_sprint_total. }
  rewrite Hes. cbn. apply length_mapM in Hes as Hlen.
  destruct es as [|e es]; [by destruct sprints_df|].
  eexists. split; [done|]. by rewrite length_map.
Qed.

Lemma enrich_sprint_unmatched (phases_df : list row) (sprint : row) (m mid : value) :
  sprint !! "match_id" = Some m → sprint !! "mid_frame" = Some mid →
  Forall (λ p, contains_mid m mid p = Some false) phases_df →
  enrich_sprint phases_df sprint = Some (no_phase sprint).
Proof.
  intros Hm Hmid Hno. unfold enrich_sprint. rewrite Hm, Hmid. cbn.
  by rewrite phase_match_none.
Qed.

Lemma not_contains_false (m mid : value) (p : row) :
  phase_row_ok p → not_str mid → ¬ contains m mid p →
  contains_mid m mid p = Some false.
Proof.
  intros Hp Hmid Hc. destruct (contains_mid_total m mid p Hp Hmid) as [b Hb].
  destruct b; [by destruct Hc|done].
Qed.

Lemma no_phase_columns (sprint : row) :
  no_phase sprint !! "team_in_possession_phase_type" = Some VNone
  ∧ no_phase sprint !! "team_out_of_possession_phase_type" = Some VNone
  ∧ no_phase sprint !! "team_in_possession_id" = Some VNone
  ∧ no_phase sprint !! "possession_lead_to_shot" = Some (VBool false)
  ∧ no_phase sprint !! "possession_lead_to_goal" = Some (VBool false)
  ∧ no_phase sprint !! "third_end" = Some VNone
  ∧ no_phase sprint !! "channel_end" = Some VNone.
Proof. unfold no_phase. repeat split; by simplify_map_eq. Qed.

Lemma enriched_has_columns (phases_df : list row) (sprint e : row) (k : string) :
  enrich_sprint phases_df sprint = Some e → k ∈ phase_columns → is_Some (e !! k).
Proof.
  unfold enrich_sprint. intros He Hk.
  destruct (sprint !! "match_id") as [m|]; [|done].
  destruct (sprint !! "mid_frame") as [mid|]; [|done]. cbn in He.
  destruct (phase_match phases_df m mid) as [[|p ps]|]; [| |done]; cbn in He.
  - injection He as <-. unfold phase_columns in Hk.
    rewrite !elem_of_cons, elem_of_nil in Hk. unfold no_phase.
    destruct Hk as [-> | [-> | [-> | [-> | [-> | [-> | [-> | []]]]]]]];
      simplify_map_eq; by eexists.
  - unfold with_phase in He.
    destruct (p !! "team_in_possession_phase_type"); [|done].
    destruct (p !! "team_out_of_possession_phase_type"); [|done].
    destruct (p !! "team_in_possession_id"); [|done].
    cbn in He. injection He as <-. unfold phase_columns in Hk.
    rewrite !elem_of_cons, elem_of_nil in Hk.
    destruct Hk as [-> | [-> | [-> | [-> | [-> | [-> | [-> | []]]]]]]];
      simplify_map_eq; by eexists.
Qed.

(** C9. A sprint whose mid_frame lies in no phase row of its match is kept:
    enrichment returns one record per input sprint, the record of that
    sprint has the five phase fields null and the two outcome flags false,
    and every field of the sprint row is carried over unchanged. *)
Theorem unmatched_sprint_kept_with_null_phase
    (sprints_df phases_df : list row) (i : nat) (sprint : row) (m mid : value) :
  Forall sprint_row_ok sprints_df → Forall phase_row_ok phases_df →
  sprints_df !! i = Some sprint →
  sprint !! "match_id" = Some m → sprint !! "mid_frame" = Some mid →
  Forall (λ p, ¬ contains m mid p) phases_df →
  (∀ k, k ∈ "is_high_value_phase" :: phase_columns → sprint !! k = None) →
  ∃ out e,
    enrich_sprints_with_phases sprints_df phases_df = Some out
    ∧ length out = length sprints_df
    ∧ out !! i = Some e
    ∧ null_phase_record sprint e.
Proof.
  intros Hs Hp Hi Hm Hmid Hno Hfresh.
  assert (sprints_df ≠ []) as Hne by (intros ->; done).
  destruct (enrich_total sprints_df phases_df Hne Hs Hp) as (out & Hout & Hlen).
  pose proof (enrich_rows _ _ _ Hout) as Hrows.
  destruct (Forall2_lookup_l _ _ _ _ _ Hrows Hi) as (o & Ho & e & He & ->).
  assert (not_str mid) as Hnum.
  { eapply Forall_lookup_1 in Hs as (_ & mid' & Hmid' & ?); [|exact Hi].
    congruence. }
  rewrite (enrich_sprint_unmatched phases_df sprint m mid Hm Hmid) in He.
  2:{ apply Forall_forall. intros p Hin.
      apply not_contains_false; [| done |].
      - by eapply Forall_forall in Hp.
      - by eapply Forall_forall in Hno. }
  injection He as <-.
  destruct (no_phase_columns sprint) as (H1 & H2 & H3 & H4 & H5 & H6 & H7).
  exists out, (add_high_value (no_phase sprint)).
  unfold null_phase_record. rewrite !add_high_value_other by done.
  repeat (split; [done|]).
  intros k [v Hk].
  assert (k ∉ "is_high_value_phase" :: phase_columns) as Hnk.
  { intros Hin. apply Hfresh in Hin. congruence. }
  apply not_elem_of_cons in Hnk as [Hk1 Hk2].
  rewrite add_high_value_other by done. by apply no_phase_other.
Qed.

Lemma unmatched_sprint_kept_witness :
  ∃ out e,
    enrich_sprints_with_phases sample_sprints_df sample_phases_far = Some out
    ∧ length out = length sample_sprints_df
    ∧ out !! 0 = Some e
    ∧ null_phase_record (sprint_to_row sample_sprint) e.
Proof.
  apply (unmatched_sprint_kept_with_null_phase
           sample_sprints_df sample_phases_far 0 (sprint_to_row sample_sprint)
           (VStr "m1") (VInt 20)).
  - apply Forall_cons; split; [|apply Forall_nil_2].
    split; [eexists; reflexivity | exists (VInt 20); by vm_compute].
  - apply Forall_cons; split; [|apply Forall_nil_2].
    split; [eexists; reflexivity|]. split; [exists (VInt 30); by vm_compute|].
    split; [exists (VInt 40); by vm_compute|].
    repeat split; eexists; reflexivity.
  - reflexivity.
  - reflexivity.
  - reflexivity.
  - repeat constructor. unfold contains. by vm_compute.
  - intros k Hk. unfold phase_columns in Hk.
    rewrite !elem_of_cons, elem_of_nil in Hk.
    destruct Hk as [-> | [-> | [-> | [-> | [-> | [-> | [-> | [-> | []]]]]]]]];
      reflexivity.
Defined.

Lemma high_value_not_phase_column : "is_high_value_phase" ∉ phase_columns.
Proof.
  unfold phase_columns. rewrite !not_elem_of_cons.
  repeat split; try done. apply not_elem_of_nil.
Qed.

Lemma pd_eq_missing_r (a : value) : pd_eq a VNone = false.
Proof. by destruct a. Qed.

Lemma add_flags_total (phases_df : list row) (sprint e j : row) :
  enrich_sprint phases_df sprint = Some e →
  joined_with_metadata (add_high_value e) j → is_Some (add_flags j).
Proof.
  intros He [[team Ht] Hj]. unfold add_flags. rewrite Ht. cbn.
  assert (∀ k, k ∈ phase_columns → is_Some (j !! k)) as Hcol.
  { intros k Hk. rewrite Hj by (by right).
    rewrite add_high_value_other.
    - by eapply enriched_has_columns.
    - intros ->. by apply high_value_not_phase_column in Hk. }
  destruct (Hcol "team_in_possession_id") as [tip ->].
  { unfold phase_columns. rewrite !elem_of_cons. tauto. }
  destruct (Hcol "third_end") as [third ->].
  { unfold phase_columns. rewrite !elem_of_cons. tauto. }
  cbn. by eexists.
Qed.

(** C10. A sprint that met no phase row leaves enrichment with a null
    team_in_possession_id, and once the metadata merge has supplied team_id
    the flag pass marks it is_attacking_sprint = False and
    is_defensive_sprint = True, whatever its team_id is; its
    is_high_value_phase and in_attacking_third are False as well. *)
Theorem unmatched_sprint_flagged_defensive
    (sprints_df phases_df : list row) (i : nat) (sprint : row) (m mid : value) :
  Forall sprint_row_ok sprints_df → Forall phase_row_ok phases_df →
  sprints_df !! i = Some sprint →
  sprint !! "match_id" = Some m → sprint !! "mid_frame" = Some mid →
  Forall (λ p, ¬ contains m mid p) phases_df →
  ∃ enriched,
    enrich_sprints_with_phases sprints_df phases_df = Some enriched
    ∧ ∀ joined,
        Forall2 joined_with_metadata enriched joined →
        ∃ flagged f,
          add_sprint_context_flags joined = Some flagged
          ∧ length flagged = length sprints_df
          ∧ flagged !! i = Some f
          ∧ defensive_flags f.
Proof.
  intros Hs Hp Hi Hm Hmid Hno.
  assert (sprints_df ≠ []) as Hne by (intros ->; done).
  destruct (enrich_total sprints_df phases_df Hne Hs Hp) as (out & Hout & Hlen).
  pose proof (enrich_rows _ _ _ Hout) as Hrows.
  exists out. split; [done|]. intros joined Hjoin.
  destruct (mapM_is_Some_2 add_flags joined) as [flagged Hfl].
  { apply Forall_forall. intros j Hj.
    apply list_elem_of_lookup in Hj as [n Hn].
    destruct (Forall2_lookup_r _ _ _ _ _ Hjoin Hn) as (o & Ho & Hoj).
    destruct (Forall2_lookup_r _ _ _ _ _ Hrows Ho) as (s & _ & e & He & ->).
    by eapply add_flags_total. }
  pose proof (Forall2_length _ _ _ Hjoin) as Hlen2.
  pose proof (length_mapM _ _ _ Hfl) as Hlen3.
  destruct (Forall2_lookup_l _ _ _ _ _ Hrows Hi) as (o & Ho & e & He & ->).
  destruct (Forall2_lookup_l _ _ _ _ _ Hjoin Ho) as (j & Hj & [team Ht] & Hkeep).
  apply mapM_Some in Hfl as Hfl2.
  destruct (Forall2_lookup_l _ _ _ _ _ Hfl2 Hj) as (f & Hf & Hjf).
  exists flagged, f. split; [done|]. split; [lia|]. split; [done|].
  assert (not_str mid) as Hnum.
  { eapply Forall_lookup_1 in Hs as (_ & mid' & Hmid' & ?); [|exact Hi].
    congruence. }
  rewrite (enrich_sprint_unmatched phases_df sprint m mid Hm Hmid) in He.
  2:{ apply Forall_forall. intros p Hin.
      apply not_contains_false; [| done |].
      - by eapply Forall_forall in Hp.
      - by eapply Forall_forall in Hno. }
  injection He as <-.
  destruct (no_phase_columns sprint) as (H1 & H2 & H3 & H4 & H5 & H6 & H7).
  assert (j !! "team_in_possession_id" = Some VNone) as Htip.
  { rewrite Hkeep by (unfold phase_columns; rewrite !elem_of_cons; tauto).
    by rewrite add_high_value_other. }
  assert (j !! "third_end" = Some VNone) as Hthird.
  { rewrite Hkeep by (unfold phase_columns; rewrite !elem_of_cons; tauto).
    by rewrite add_high_value_other. }
  assert (j !! "is_high_value_phase" = Some (VBool false)) as Hhv.
  { rewrite Hkeep by left. unfold add_high_value.
    rewrite lookup_insert_eq, H1. done. }
  unfold add_flags in Hjf. rewrite Ht, Htip, Hthird in Hjf. cbn in Hjf.
  injection Hjf as <-. rewrite pd_eq_missing_r.
  unfold defensive_flags. by simplify_map_eq.
Qed.

Lemma unmatched_sprint_flagged_witness :
  ∃ enriched,
    enrich_sprints_with_phases sample_sprints_df sample_phases_far = Some enriched
    ∧ ∀ joined,
        Forall2 joined_with_metadata enriched joined →
        ∃ flagged f,
          add_sprint_context_flags joined = Some flagged
          ∧ length flagged = length sample_sprints_df
          ∧ flagged !! 0 = Some f
          ∧ defensive_flags f.
Proof.
  apply (unmatched_sprint_flagged_defensive
           sample_sprints_df sample_phases_far 0 (sprint_to_row sample_sprint)
           (VStr "m1") (VInt 20)).
  - apply Forall_cons; split; [|apply Forall_nil_2].
    split; [eexists; reflexivity | exists (VInt 20); by vm_compute].
  - apply Forall_cons; split; [|apply Forall_nil_2].
    split; [eexists; reflexivity|]. split; [exists (VInt 30); by vm_compute|].
    split; [exists (VInt 40); by vm_compute|].
    repeat split; eexists; reflexivity.
  - reflexivity.
  - reflexivity.
  - reflexivity.
  - repeat constructor. unfold contains. by vm_compute.
Defined.

Lemma filter_first_split {A} (P : A → Prop) `{!∀ x, Decision (P x)}
    (l : list A) (p : A) (rest : list A) :
  filter P l = p :: rest →
  ∃ before after,
    l = before ++ p :: after ∧ Forall (λ q, ¬ P q) before
    ∧ rest = filter P after.
Proof.
  induction l as [|a l IH]; [done|].
  rewrite filter_cons. destruct (decide (P a)) as [Ha|Ha].
  - intros [= -> <-]. by exists [], l.
  - intros Hf. destruct (IH Hf) as (before & after & -> & Hb & ->).
    exists (a :: before), after. split; [done|]. split; [|done].
    by constructor.
Qed.


(** C1 (as the code has it). When one or more phase rows of the match hold
    the sprint's mid_frame, the sprint is joined to the first such row in
    the order of the phase table: every row before it does not hold the
    mid_frame.  That row has the lowest frame_start of the rows holding the
    mid_frame when the table is in ascending frame_start order.  The join
    is a function of the table and the sprint, so it is the same on every
    run. *)
Theorem join_takes_first_containing_row
    (phases_df : list row) (sprint : row) (m mid : value) (p : row)
    (rest : list row) :
  Forall phase_row_ok phases_df → not_str mid →
  sprint !! "match_id" = Some m → sprint !! "mid_frame" = Some mid →
  filter (contains m mid) phases_df = p :: rest →
  enrich_sprint phases_df sprint = with_phase sprint p
  ∧ is_Some (with_phase sprint p)
  ∧ (∃ before after,
        phases_df = before ++ p :: after
        ∧ Forall (λ q, ¬ contains m mid q) before)
  ∧ (StronglySorted start_le phases_df → Forall (start_le p) rest).
Proof.
  intros Hp Hnum Hm Hmid Hf.
  destruct (filter_first_split _ _ _ _ Hf) as (before & after & Hl & Hb & Hrest).
  split; [|split; [|split]].
  - unfold enrich_sprint. rewrite Hm, Hmid. cbn.
    rewrite phase_match_filter, Hf; [done|].
    eapply Forall_impl; [exact Hp|]. intros q Hq. by apply contains_mid_total.
  - apply with_phase_total. eapply Forall_forall; [exact Hp|].
    rewrite Hl. apply elem_of_app. right. left.
  - by exists before, after.
  - intros Hsorted. rewrite Hl in Hsorted.
    apply StronglySorted_app_1_r in Hsorted.
    apply StronglySorted_inv in Hsorted as [_ Hall].
    rewrite Hrest. apply Forall_forall. intros q Hq.
    apply list_elem_of_filter in Hq as [_ Hq].
    by eapply Forall_forall in Hall.
Qed.

Lemma join_takes_first_witness :
  enrich_sprint sample_phases_sorted (sprint_to_row sample_sprint)
  = with_phase (sprint_to_row sample_sprint)
               (sample_phase 5 25 2 "team_possession_lead_to_shot")
  ∧ is_Some (with_phase (sprint_to_row sample_sprint)
               (sample_phase 5 25 2 "team_possession_lead_to_shot"))
  ∧ (∃ before after,
        sample_phases_sorted
        = before ++ sample_phase 5 25 2 "team_possession_lead_to_shot" :: after
        ∧ Forall (λ q, ¬ contains (VStr "m1") (VInt 20) q) before)
  ∧ (StronglySorted start_le sample_phases_sorted →
     Forall (start_le (sample_phase 5 25 2 "team_possession_lead_to_shot"))
            [sample_phase 10 30 1 "team_possession_lead_to_shot"]).
Proof.
  apply (join_takes_first_containing_row
           sample_phases_sorted (sprint_to_row sample_sprint)
           (VStr "m1") (VInt 20)).
  - apply Forall_cons; split; [|apply Forall_cons; split; [|apply Forall_nil_2]].
    + split; [eexists; reflexivity|]. split; [exists (VInt 5); by vm_compute|].
      split; [exists (VInt 25); by vm_compute|].
      repeat split; eexists; reflexivity.
    + split; [eexists; reflexivity|]. split; [exists (VInt 10); by vm_compute|].
      split; [exists (VInt 30); by vm_compute|].
      repeat split; eexists; reflexivity.
  - exact I.
  - reflexivity.
  - reflexivity.
  - unfold sample_phases_sorted. rewrite !filter_cons.
    by rewrite !decide_True by (by vm_compute).
Defined.

(** C1 as worded fails: with two rows holding the mid_frame, the later-
    starting one first in the table, the sprint is joined to that first row
    and not to the row with the lowest frame_start. *)
Lemma join_not_lowest_frame_start :
  contains (VStr "m1") (VInt 20) (sample_phase 10 30 1 "team_possession_lead_to_shot")
  ∧ contains (VStr "m1") (VInt 20) (sample_phase 5 25 2 "team_possession_lead_to_shot")
  ∧ ¬ joins_lowest_frame_start sample_phases_overlap (sprint_to_row sample_sprint).
Proof.
  split; [by vm_compute|]. split; [by vm_compute|].
  intros (m & mid & p & Hm & Hmid & Hin & Hc & Hmin & He).
  vm_compute in Hm. vm_compute in Hmid.
  injection Hm as <-. injection Hmid as <-.
  unfold sample_phases_overlap in Hin.
  rewrite !elem_of_cons, elem_of_nil in Hin.
  destruct Hin as [-> | [-> | []]].
  - destruct (Hmin (sample_phase 5 25 2 "team_possession_lead_to_shot"))
      as (a & b & Ha & Hb & Hle).
    + unfold sample_phases_overlap. rewrite !elem_of_cons. tauto.
    + by vm_compute.
    + vm_compute in Ha. vm_compute in Hb.
      injection Ha as <-. injection Hb as <-. by vm_compute in Hle.
  - apply (f_equal (λ o, o ≫= (.!! "team_in_possession_id"))) in He.
    by vm_compute in He.
Qed.




(** ** Grouping *)

Section Groupby.
Context {A : Type}.
  Implicit Types (gs kbs : list (nat * list A)) (l : list (nat * A)).

Lemma add_to_group_new k (a : A) gs :
    Forall (λ g, g.1 < k) gs → add_to_group k a gs = gs ++ [(k, [a])].
  Proof.
    induction 1 as [|[k' rows] gs Hk _ IH]; [done|].
    cbn [add_to_group]. cbn in Hk.
    destruct (Nat.eqb_spec k k'); [lia|].
    destruct (Nat.ltb_spec k k'); [lia|]. by rewrite IH.
  Qed.

Lemma add_to_group_last k (a : A) gs rows :
    Forall (λ g, g.1 < k) gs →
    add_to_group k a (gs ++ [(k, rows)]) = gs ++ [(k, rows ++ [a])].
  Proof.
    induction 1 as [|[k' rows'] gs Hk _ IH]; cbn [app add_to_group].
    - by rewrite Nat.eqb_refl.
    - cbn in Hk. destruct (Nat.eqb_spec k k'); [lia|].
      destruct (Nat.ltb_spec k k'); [lia|]. by rewrite IH.
  Qed.

Lemma foldl_group_extend k gs rows (b : list A) :
    Forall (λ g, g.1 < k) gs →
    foldl (λ gs ka, add_to_group ka.1 ka.2 gs) (gs ++ [(k, rows)]) (pair k <$> b)
    = gs ++ [(k, rows ++ b)].
  Proof.
    intros Hgs. revert rows.
    induction b as [|a b IH]; intros rows; cbn.
    - by rewrite app_nil_r.
    - rewrite add_to_group_last by done. rewrite IH.
      by rewrite <- app_assoc.
  Qed.

Lemma foldl_group_block k gs (b : list A) :
    Forall (λ g, g.1 < k) gs → b ≠ [] →
    foldl (λ gs ka, add_to_group ka.1 ka.2 gs) gs (pair k <$> b) = gs ++ [(k, b)].
  Proof.
    intros Hgs Hb. destruct b as [|a b]; [done|]. cbn.
    rewrite add_to_group_new by done. by rewrite foldl_group_extend.
  Qed.

Lemma foldl_group_blocks gs kbs :
    StronglySorted lt ((gs ++ kbs).*1) → Forall (λ kb, kb.2 ≠ []) kbs →
    foldl (λ gs ka, add_to_group ka.1 ka.2 gs) gs (flatten_blocks kbs) = gs ++ kbs.
  Proof.
    revert gs. induction kbs as [|[k b] kbs IH]; intros gs Hs Hne.
    - by rewrite app_nil_r.
    - apply Forall_cons in Hne as [Hb Hne]. unfold flatten_blocks. cbn.
      rewrite foldl_app, foldl_group_block; [| |done].
      + change (foldl (λ gs0 ka, add_to_group ka.1 ka.2 gs0) (gs ++ [(k, b)])
                  (flatten_blocks kbs) = gs ++ (k, b) :: kbs).
        rewrite IH; [by rewrite <- app_assoc| |done].
        by rewrite <- app_assoc.
      + rewrite fmap_app in Hs. cbn in Hs.
        apply StronglySorted_app in Hs as (Hlt & _ & _).
        apply Forall_forall. intros g Hg. apply Hlt.
        * by apply list_elem_of_fmap_2.
        * left.
  Qed.

Lemma groupby_blocks kbs :
    StronglySorted lt (kbs.*1) → Forall (λ kb, kb.2 ≠ []) kbs →
    groupby (flatten_blocks kbs) = kbs.
  Proof. intros. unfold groupby. by rewrite foldl_group_blocks. Qed.

Lemma blocks_of_sorted l :
    StronglySorted le (l.*1) →
    ∃ kbs, l = flatten_blocks kbs ∧ StronglySorted lt (kbs.*1)
           ∧ Forall (λ kb, kb.2 ≠ []) kbs.
  Proof.
    induction l as [|[k a] l IH]; intros Hs.
    - exists []. repeat split; constructor.
    - cbn in Hs. apply StronglySorted_inv in Hs as [Hs Hk].
      destruct (IH Hs) as (kbs & -> & Hlt & Hne).
      destruct kbs as [|[k' b] kbs].
      + exists [(k, [a])]. repeat split; repeat constructor. done.
      + apply Forall_cons in Hne as [Hb Hne]. cbn in Hb.
        assert (k ≤ k') as Hle.
        { destruct b as [|a' b]; [done|].
          unfold flatten_blocks in Hk. cbn in Hk.
          by apply Forall_cons in Hk as [Hk _]. }
        cbn in Hlt. apply StronglySorted_inv in Hlt as [Hlt Hk'].
        destruct (decide (k = k')) as [->|Hne'].
        * exists ((k', a :: b) :: kbs). repeat split.
          -- cbn. by constructor.
          -- by constructor.
        * exists ((k, [a]) :: (k', b) :: kbs). repeat split.
          -- cbn. constructor; [by constructor|].
             constructor; [lia|]. eapply Forall_impl; [exact Hk'|].
             cbn. lia.
          -- by repeat constructor.
  Qed.

Lemma concat_flatten_blocks kbs :
    concat (kbs.*2) = (flatten_blocks kbs).*2.
  Proof.
    induction kbs as [|[k b] kbs IH]; [done|].
    unfold flatten_blocks in *. cbn. rewrite fmap_app, IH. f_equal.
    rewrite <- list_fmap_compose. clear. by induction b; cbn; f_equal.
  Qed.

  (** On a frame whose keys never decrease, grouping cuts the frame into
      consecutive blocks: the groups, read in order, give the rows back in
      their original order. *)
Lemma groupby_sorted l :
    StronglySorted le (l.*1) →
    concat ((groupby l).*2) = l.*2
    ∧ StronglySorted lt ((groupby l).*1)
    ∧ Forall (λ g, g.2 ≠ [] ∧ ∀ a, a ∈ g.2 → (g.1, a) ∈ l) (groupby l).
  Proof.
    intros Hs. destruct (blocks_of_sorted l Hs) as (kbs & -> & Hlt & Hne).
    rewrite groupby_blocks by done. split; [apply concat_flatten_blocks|].
    split; [done|]. apply Forall_forall. intros [k b] Hin. split.
    - by eapply Forall_forall in Hne.
    - intros a Ha. unfold flatten_blocks. apply list_elem_of_bind.
      exists (k, b). split; [|done]. cbn. by apply list_elem_of_fmap_2.
  Qed.
End Groupby.

(** ** Sprint segmenter *)

Lemma is_sprinting_above (th : Q) (s : option Q) :
  at_or_above th s → is_sprinting th s = true.
Proof. intros (v & -> & Hv). by apply Qle_bool_iff. Qed.

Lemma is_sprinting_below (th : Q) (s : option Q) :
  (0 < th)%Q → below_or_missing th s → is_sprinting th s = false.
Proof.
  intros Hth Hs. unfold is_sprinting.
  destruct (Qle_bool th (default 0%Q s)) eqn:E; [|done].
  apply Qle_bool_iff in E. destruct s as [v|]; cbn in *.
  - exfalso. exact (Qlt_not_le _ _ Hs E).
  - exfalso. exact (Qlt_not_le _ _ Hth E).
Qed.

Lemma sprint_group_from_length prev acc flags :
  length (sprint_group_from prev acc flags) = length flags.
Proof.
  revert prev acc. induction flags as [|b t IH]; intros; cbn; [done|].
  by rewrite IH.
Qed.

Lemma sprint_group_from_sorted prev acc flags :
  StronglySorted le (sprint_group_from prev acc flags)
  ∧ Forall (le acc) (sprint_group_from prev acc flags).
Proof.
  revert prev acc. induction flags as [|b t IH]; intros prev acc; cbn.
  - split; constructor.
  - set (acc' := if changed prev b then S acc else acc).
    assert (acc ≤ acc') as Hle by (unfold acc'; destruct (changed prev b); lia).
    destruct (IH (Some b) acc') as [Hs Hall]. split.
    + by constructor.
    + constructor; [done|]. eapply Forall_impl; [exact Hall|]. cbn. lia.
Qed.

Lemma sprint_group_from_app prev acc f1 f2 :
  ∃ prev' acc',
    sprint_group_from prev acc (f1 ++ f2)
    = sprint_group_from prev acc f1 ++ sprint_group_from prev' acc' f2.
Proof.
  revert prev acc. induction f1 as [|b t IH]; intros prev acc; cbn.
  - by exists prev, acc.
  - destruct (IH (Some b) (if changed prev b then S acc else acc))
      as (prev' & acc' & ->).
    by exists prev', acc'.
Qed.

Lemma sprint_group_from_const prev acc flags b :
  Forall (eq b) flags →
  ∃ k, sprint_group_from prev acc flags = replicate (length flags) k.
Proof.
  intros Hall. exists (if changed prev b then S acc else acc).
  revert prev acc. induction Hall as [|b' t <- _ IH]; intros prev acc; [done|].
  cbn. f_equal. rewrite IH. cbn. by rewrite xorb_nilpotent.
Qed.

Lemma StronglySorted_sublist {A} (R : relation A) (l k : list A) :
  sublist l k → StronglySorted R k → StronglySorted R l.
Proof.
  induction 1 as [|x l k Hsub IH|x l k Hsub IH]; intros Hs; [done| |].
  - apply StronglySorted_inv in Hs as [Hs Hx]. constructor; [by apply IH|].
    apply Forall_forall. intros y Hy.
    eapply Forall_forall in Hx; [exact Hx|]. by eapply elem_of_sublist.
  - apply StronglySorted_inv in Hs as [Hs _]. by apply IH.
Qed.

Lemma filter_zip_snd {A B} (P : A * B → Prop) (Q : B → Prop)
    `{!∀ x, Decision (P x)} `{!∀ x, Decision (Q x)}
    (ids : list A) (l : list B) :
  (∀ kr, P kr ↔ Q kr.2) → length ids = length l →
  (filter P (zip ids l)).*2 = filter Q l.
Proof.
  intros HPQ. revert ids.
  induction l as [|x l IH]; intros [|i ids] Hlen; try done.
  cbn [zip zip_with]. rewrite !filter_cons.
  destruct (decide (P (i, x))) as [HP|HP]; destruct (decide (Q x)) as [HQ|HQ].
  - cbn. rewrite IH by (cbn in Hlen; lia). done.
  - by apply HPQ in HP.
  - destruct HP. by apply HPQ.
  - apply IH. cbn in Hlen. lia.
Qed.

(** The sprint groups of a track are consecutive blocks of its sprinting
    rows: read in order they give those rows back in track order, and none
    of them is empty. *)
Lemma sprint_groups_structure (th : Q) (pdf : list SpeedRow) :
  concat ((sprint_groups th pdf).*2)
  = filter (λ r : SpeedRow, is_sprinting th r.2 = true) pdf
  ∧ StronglySorted lt ((sprint_groups th pdf).*1)
  ∧ Forall (λ g, g.2 ≠ []) (sprint_groups th pdf).
Proof.
  unfold sprint_groups.
  match goal with |- context [zip ?X pdf] => set (ids := X) end.
  assert (length ids = length pdf) as Hlen.
  { unfold ids, sprint_group. by rewrite sprint_group_from_length, length_map. }
  match goal with |- context [groupby ?X] => set (L := X) end.
  assert (StronglySorted le (L.*1)) as Hs.
  { eapply StronglySorted_sublist.
    - apply fmap_sublist. apply sublist_filter.
    - rewrite fst_zip by lia. apply sprint_group_from_sorted. }
  destruct (groupby_sorted L Hs) as (Hc & Hk & Hg).
  split; [|split; [done|]].
  - rewrite Hc. unfold L.
    by apply filter_zip_snd.
  - eapply Forall_impl; [exact Hg|]. by intros g [? _].
Qed.

Lemma foldr_min_spec (d : Z) (t : list Z) :
  (foldr Z.min d t = d ∨ foldr Z.min d t ∈ t)
  ∧ (foldr Z.min d t ≤ d)%Z ∧ Forall (Z.le (foldr Z.min d t)) t.
Proof.
  induction t as [|a t (Hin & Hd & Hall)]; cbn.
  - repeat split; [by left|lia|constructor].
  - split; [|split].
    + destruct (Z.min_spec a (foldr Z.min d t)) as [[_ ->]|[_ ->]].
      * right. left.
      * destruct Hin as [->|Hin]; [by left|right; by right].
    + lia.
    + constructor; [lia|]. eapply Forall_impl; [exact Hall|]. cbn. lia.
Qed.

Lemma foldr_max_spec (d : Z) (t : list Z) :
  (foldr Z.max d t = d ∨ foldr Z.max d t ∈ t)
  ∧ (d ≤ foldr Z.max d t)%Z ∧ Forall (λ x, (x ≤ foldr Z.max d t)%Z) t.
Proof.
  induction t as [|a t (Hin & Hd & Hall)]; cbn.
  - repeat split; [by left|lia|constructor].
  - split; [|split].
    + destruct (Z.max_spec a (foldr Z.max d t)) as [[_ ->]|[_ ->]].
      * destruct Hin as [->|Hin]; [by left|right; by right].
      * right. left.
    + lia.
    + constructor; [lia|]. eapply Forall_impl; [exact Hall|]. cbn. lia.
Qed.

Lemma min_frame_spec (l : list Z) :
  l ≠ [] → min_frame l ∈ l ∧ Forall (Z.le (min_frame l)) l.
Proof.
  destruct l as [|a t]; [done|]. intros _. unfold min_frame. cbn [hd].
  destruct (foldr_min_spec a (a :: t)) as (Hin & _ & Hall).
  split; [|done]. destruct Hin as [->|Hin]; [left|done].
Qed.

Lemma max_frame_spec (l : list Z) :
  l ≠ [] → max_frame l ∈ l ∧ Forall (λ x, (x ≤ max_frame l)%Z) l.
Proof.
  destruct l as [|a t]; [done|]. intros _. unfold max_frame. cbn [hd].
  destruct (foldr_max_spec a (a :: t)) as (Hin & _ & Hall).
  split; [|done]. destruct Hin as [->|Hin]; [left|done].
Qed.

Lemma summarise_short (fps : Z) (run : list SpeedRow) :
  length run < 6 → summarise fps run = None.
Proof.
  intros Hlen. unfold summarise.
  destruct (Nat.ltb_spec (length run) 6); [done|lia].
Qed.

Lemma summarise_Some (fps : Z) (run : list SpeedRow) (c : SprintCandidate) :
  summarise fps run = Some c ↔
  6 ≤ length run ∧ 4 ≤ length (dropna run.*2)
  ∧ c = {| frame_start := min_frame run.*1;
           frame_end := max_frame run.*1;
           mid_frame := Z.quot (min_frame run.*1 + max_frame run.*1) 2;
           duration_s :=
             (inject_Z (max_frame run.*1 - min_frame run.*1 + 1) / inject_Z fps)%Q;
           distance_m :=
             (mean (dropna run.*2) / (36 # 10)
              * (inject_Z (max_frame run.*1 - min_frame run.*1 + 1)
                 / inject_Z fps))%Q;
           avg_speed_kmh := mean (dropna run.*2);
           max_speed_kmh := quantile 9 10 (dropna run.*2) |}.
Proof.
  unfold summarise.
  destruct (Nat.ltb_spec (length run) 6) as [H6|H6].
  { split; [done|]. intros (? & _). lia. }
  change (map snd run) with (run.*2). change (map fst run) with (run.*1).
  destruct (Nat.eqb_spec (length (dropna run.*2)) 0) as [H0|H0]; cbn [orb].
  { split; [done|]. intros (_ & ? & _). lia. }
  destruct (Nat.ltb_spec (length (dropna run.*2)) 4) as [H4|H4].
  { split; [done|]. intros (_ & ? & _). lia. }
  split.
  - intros [= <-]. done.
  - intros (_ & _ & ->). done.
Qed.

Lemma elem_of_concat {A} (x : A) (ls : list (list A)) :
  x ∈ concat ls ↔ ∃ l, x ∈ l ∧ l ∈ ls.
Proof.
  induction ls as [|l ls IH]; cbn.
  - split; [by intros ?%elem_of_nil|]. by intros (l & _ & ?%elem_of_nil).
  - rewrite elem_of_app, IH. split.
    + intros [Hx|(l' & Hx & Hl)]; [exists l; split; [done|left]|].
      exists l'. split; [done|by right].
    + intros (l' & Hx & Hl). apply elem_of_cons in Hl as [->|Hl]; [by left|].
      right. by exists l'.
Qed.

Lemma sprint_group_rows (th : Q) (pdf : list SpeedRow) (k : nat)
    (run : list SpeedRow) :
  (k, run) ∈ sprint_groups th pdf →
  run ≠ [] ∧ Forall (λ r, is_sprinting th r.2 = true ∧ r ∈ pdf) run.
Proof.
  intros Hin. destruct (sprint_groups_structure th pdf) as (Hc & _ & Hne).
  split.
  - eapply Forall_forall in Hne; [|exact Hin]. done.
  - apply Forall_forall. intros r Hr.
    assert (r ∈ concat (sprint_groups th pdf).*2) as Hcat.
    { apply elem_of_concat. exists run. split; [done|].
      apply list_elem_of_fmap. by exists (k, run). }
    rewrite Hc in Hcat. by apply list_elem_of_filter in Hcat.
Qed.



Lemma filter_zip_all {A B} (P : A * B → Prop) `{!∀ x, Decision (P x)}
    (ids : list A) (l : list B) :
  (∀ i x, x ∈ l → P (i, x)) → filter P (zip ids l) = zip ids l.
Proof.
  revert ids. induction l as [|x l IH]; intros [|i ids] HP; try done.
  cbn [zip zip_with]. rewrite filter_cons.
  rewrite decide_True by (apply HP; left).
  f_equal. apply IH. intros j y Hy. apply HP. by right.
Qed.

Lemma filter_zip_none {A B} (P : A * B → Prop) `{!∀ x, Decision (P x)}
    (ids : list A) (l : list B) :
  (∀ i x, x ∈ l → ¬ P (i, x)) → filter P (zip ids l) = [].
Proof.
  revert ids. induction l as [|x l IH]; intros [|i ids] HP; try done.
  cbn [zip zip_with]. rewrite filter_cons.
  rewrite decide_False by (apply HP; left).
  apply IH. intros j y Hy. apply HP. by right.
Qed.

Lemma zip_replicate {A B} (k : A) (l : list B) :
  zip (replicate (length l) k) l = pair k <$> l.
Proof. induction l as [|x l IH]; cbn; [done|]. by rewrite IH. Qed.

Lemma omap_singleton {A B} (f : A → option B) (x : A) :
  omap f [x] = match f x with Some y => [y] | None => [] end.
Proof. reflexivity. Qed.

(** A track with one stretch of sprinting rows and none elsewhere has one
    sprint group, the stretch itself. *)
Lemma sprint_groups_single_run (th : Q) (pre run post : list SpeedRow) :
  Forall (λ r, is_sprinting th r.2 = false) pre →
  Forall (λ r, is_sprinting th r.2 = true) run →
  Forall (λ r, is_sprinting th r.2 = false) post →
  run ≠ [] →
  ∃ k, sprint_groups th (pre ++ run ++ post) = [(k, run)].
Proof.
  intros Hpre Hrun Hpost Hne. unfold sprint_groups, sprint_group.
  rewrite !map_app.
  edestruct (sprint_group_from_app None 0) as (p1 & a1 & ->).
  edestruct (sprint_group_from_app p1 a1) as (p2 & a2 & ->).
  match goal with
  | |- context [sprint_group_from p1 a1 ?X ++ _] =>
      destruct (sprint_group_from_const p1 a1 X true) as [k Hk]
  end.
  { apply Forall_fmap. eapply Forall_impl; [exact Hrun|].
    intros r Hr. cbn. by rewrite Hr. }
  rewrite Hk, length_map. exists k.
  rewrite zip_with_app by (by rewrite sprint_group_from_length, length_map).
  rewrite zip_with_app by (by rewrite length_replicate).
  rewrite !filter_app.
  rewrite filter_zip_none.
  2:{ intros i r Hr. cbn. eapply Forall_forall in Hpre; [|exact Hr].
      by rewrite Hpre. }
  rewrite (filter_zip_none _ _ post).
  2:{ intros i r Hr. cbn. eapply Forall_forall in Hpost; [|exact Hr].
      by rewrite Hpost. }
  rewrite filter_zip_all.
  2:{ intros i r Hr. cbn. by eapply Forall_forall in Hrun. }
  rewrite app_nil_r. cbn [app].
  change (zip_with pair (replicate (length run) k) run)
    with (zip (replicate (length run) k) run).
  rewrite zip_replicate. unfold groupby.
  by rewrite foldl_group_block.
Qed.

Lemma dropna_all_present (l : list (option Q)) :
  Forall is_Some l → length (dropna l) = length l.
Proof.
  unfold dropna. induction 1 as [|o l [v ->] _ IH]; [done|]. cbn. by rewrite IH.
Qed.

Lemma consecutive_min_max (f0 : Z) (frames : list Z) :
  frames ≠ [] → consecutive_from f0 frames →
  min_frame frames = f0
  ∧ max_frame frames = (f0 + Z.of_nat (length frames) - 1)%Z.
Proof.
  intros Hne Hcons.
  destruct (min_frame_spec frames Hne) as [Hmin Hminall].
  destruct (max_frame_spec frames Hne) as [Hmax Hmaxall].
  assert (∀ f, f ∈ frames →
               (f0 ≤ f ≤ f0 + Z.of_nat (length frames) - 1)%Z) as Hrange.
  { intros f Hf. rewrite Hcons in Hf.
    apply list_elem_of_fmap in Hf as (i & -> & Hi).
    apply elem_of_seq in Hi. lia. }
  assert (f0 ∈ frames) as Hfirst.
  { rewrite Hcons. apply list_elem_of_fmap. exists 0. split; [lia|].
    apply elem_of_seq. destruct frames; [done|]. cbn. lia. }
  assert ((f0 + Z.of_nat (length frames) - 1)%Z ∈ frames) as Hlast.
  { rewrite Hcons at 2. apply list_elem_of_fmap. exists (length frames - 1).
    destruct frames; [done|]. split; [cbn [length]; lia|].
    apply elem_of_seq. cbn [length]. lia. }
  apply Hrange in Hmin as Hmin'. apply Hrange in Hmax as Hmax'.
  eapply Forall_forall in Hminall; [|exact Hfirst].
  eapply Forall_forall in Hmaxall; [|exact Hlast].
  lia.
Qed.

(** C6. A smoothed curve that is at or above 24.5 km/h on one stretch of
    consecutive frames and below it or missing everywhere else gives
    exactly one candidate when the stretch has six frames or more, running
    from its first to its last frame, with duration_s = 0.6 at 10 fps for
    six frames; when the stretch has fewer than six frames (five, say) it
    gives no candidate. *)
Theorem six_frame_run_yields_one_candidate
    (pre run post : list SpeedRow) (f0 : Z) :
  Forall (λ r, below_or_missing (245 # 10) r.2) pre →
  Forall (λ r, at_or_above (245 # 10) r.2) run →
  Forall (λ r, below_or_missing (245 # 10) r.2) post →
  run ≠ [] → consecutive_from f0 run.*1 →
  (6 ≤ length run →
   ∃ c, candidates 10 (245 # 10) (pre ++ run ++ post) = [c]
        ∧ frame_start c = f0
        ∧ frame_end c = (f0 + Z.of_nat (length run) - 1)%Z
        ∧ (length run = 6 → (duration_s c == 6 # 10)%Q))
  ∧ (length run < 6 → candidates 10 (245 # 10) (pre ++ run ++ post) = []).
Proof.
  intros Hpre Hrun Hpost Hne Hcons.
  destruct (sprint_groups_single_run (245 # 10) pre run post) as [k Hk]; try done.
  { eapply Forall_impl; [exact Hpre|]. intros r. by apply is_sprinting_below. }
  { eapply Forall_impl; [exact Hrun|]. intros r. by apply is_sprinting_above. }
  { eapply Forall_impl; [exact Hpost|]. intros r. by apply is_sprinting_below. }
  unfold candidates. rewrite Hk, omap_singleton. cbn [snd].
  split.
  - intros H6.
    assert (length (dropna run.*2) = length run) as Hall.
    { rewrite dropna_all_present; [by rewrite length_fmap|].
      apply Forall_fmap. eapply Forall_impl; [exact Hrun|].
      intros r (v & Hv & _). cbn. rewrite Hv. by eexists. }
    destruct (summarise 10 run) as [c|] eqn:Hc.
    2:{ exfalso. assert (is_Some (summarise 10 run)) as [c' Hc'].
        { eexists. apply summarise_Some. split; [done|]. split; [lia|done]. }
        congruence. }
    exists c. split; [done|].
    apply summarise_Some in Hc as (_ & _ & ->).
    cbn [frame_start frame_end duration_s].
    assert (run.*1 ≠ []) as Hne' by (by destruct run).
    destruct (consecutive_min_max f0 run.*1 Hne' Hcons) as [-> ->].
    rewrite length_fmap. split; [done|]. split; [done|].
    intros ->. replace (f0 + Z.of_nat 6 - 1 - f0 + 1)%Z with 6%Z by lia.
    reflexivity.
  - intros H5. by rewrite summarise_short.
Qed.

Lemma six_frame_run_witness :
  (6 ≤ 6 →
   ∃ c, candidates 10 (245 # 10) sample_pdf = [c]
        ∧ frame_start c = 50%Z
        ∧ frame_end c = (50 + Z.of_nat 6 - 1)%Z
        ∧ (6 = 6 → (duration_s c == 6 # 10)%Q))
  ∧ (6 < 6 → candidates 10 (245 # 10) sample_pdf = []).
Proof.
  apply (six_frame_run_yields_one_candidate
           [(48%Z, Some 10%Q); (49%Z, None)]
           [(50%Z, Some 27%Q); (51%Z, Some 27%Q); (52%Z, Some 27%Q);
            (53%Z, Some 27%Q); (54%Z, Some 27%Q); (55%Z, Some 27%Q)]
           [(56%Z, Some 3%Q)] 50%Z).
  - repeat (apply Forall_cons; split; [by vm_compute|]). apply Forall_nil_2.
  - repeat (apply Forall_cons; split;
            [exists 27%Q; split; [done|by vm_compute]|]).
    apply Forall_nil_2.
  - repeat (apply Forall_cons; split; [by vm_compute|]). apply Forall_nil_2.
  - done.
  - reflexivity.
Defined.

(** ** Signal conditioner *)

Lemma length_rolling (f : list Q → Q) (w : nat) (l : list (option Q)) :
  length (rolling f w l) = length l.
Proof. unfold rolling. by rewrite length_map, length_seq. Qed.

Lemma length_speeds_kmh (fps : Z) (distances : list (option Q)) :
  length (speeds_kmh fps distances) = length distances.
Proof.
  unfold speeds_kmh, clip_upper, to_kmh, mask_teleports.
  by rewrite !length_map.
Qed.

Lemma length_speed_smooth (fps : Z) (distances : list (option Q)) :
  length (speed_smooth fps distances) = length distances.
Proof.
  unfold speed_smooth, rolling_mean, rolling_median.
  by rewrite !length_rolling, length_speeds_kmh.
Qed.

Lemma rolling_lookup (f : list Q → Q) (w : nat) (l : list (option Q)) (i : nat) :
  i < length l → rolling f w l !! i = Some (window_stat f (window_at w l i)).
Proof.
  intros Hi. unfold rolling.
  change (map ?g ?k) with (g <$> k).
  rewrite list_lookup_fmap, lookup_seq_lt by done. done.
Qed.


Lemma dropna_elem (cells : list (option Q)) (v : Q) :
  v ∈ dropna cells ↔ Some v ∈ cells.
Proof.
  unfold dropna. rewrite list_elem_of_omap. split.
  - intros (o & Ho & Hid). cbn in Hid. by subst.
  - intros Hv. by exists (Some v).
Qed.

Lemma window_stat_is_Some (f : list Q → Q) (cells : list (option Q)) :
  is_Some (window_stat f cells) ↔ ∃ v, Some v ∈ cells.
Proof.
  unfold window_stat. destruct (dropna cells) as [|v vs] eqn:E.
  - split; [by intros [? ?]|]. intros [v Hv].
    apply dropna_elem in Hv. rewrite E in Hv. by apply elem_of_nil in Hv.
  - split; [|by eexists]. intros _. exists v. apply dropna_elem.
    rewrite E. left.
Qed.



Lemma mask_teleports_lookup (distances : list (option Q)) (i : nat) (d : Q) :
  distances !! i = Some (Some d) →
  mask_teleports distances !! i
  = Some (if Qltb 1 d then None else Some d).
Proof.
  intros Hi. unfold mask_teleports. change (map ?g ?k) with (g <$> k).
  by rewrite list_lookup_fmap, Hi.
Qed.

Lemma speeds_kmh_lookup (fps : Z) (distances : list (option Q)) (i : nat) :
  speeds_kmh fps distances !! i
  = (λ d, match d with
          | Some v =>
              if Qltb 1 v then None
              else Some (let s := (v * inject_Z fps * (36 # 10))%Q in
                         if Qle_bool s 32 then s else 32%Q)
          | None => None
          end) <$> distances !! i.
Proof.
  unfold speeds_kmh, clip_upper, to_kmh, mask_teleports.
  change (map ?g ?k) with (g <$> k).
  rewrite !list_lookup_fmap. destruct (distances !! i) as [[v|]|]; cbn; try done.
  by destruct (Qltb 1 v).
Qed.



(** ** Sorting *)

Section SortingFacts.
Context {A : Type} (leb : A → A → bool).
Hypothesis leb_total : ∀ a b, leb a b = true ∨ leb b a = true.
Hypothesis leb_trans : ∀ a b c, leb a b = true → leb b c = true → leb a c = true.

Lemma insert_sorted_perm (a : A) (l : list A) :
    insert_sorted leb a l ≡ₚ a :: l.
  Proof.
    induction l as [|b t IH]; cbn; [done|].
    destruct (leb a b); [done|]. rewrite IH. apply perm_swap.
  Qed.

Lemma sort_values_perm (l : list A) : sort_values leb l ≡ₚ l.
  Proof.
    induction l as [|a t IH]; cbn; [done|].
    by rewrite insert_sorted_perm, IH.
  Qed.

Lemma insert_sorted_sorted (a : A) (l : list A) :
    StronglySorted (λ x y, leb x y = true) l →
    StronglySorted (λ x y, leb x y = true) (insert_sorted leb a l).
  Proof.
    induction 1 as [|b t Hs IH Hb]; cbn.
    - repeat constructor.
    - destruct (leb a b) eqn:E.
      + constructor; [by constructor|]. constructor; [done|].
        eapply Forall_impl; [exact Hb|]. cbn. eauto.
      + constructor; [done|].
        rewrite insert_sorted_perm. constructor; [|done].
        destruct (leb_total a b); congruence.
  Qed.

Lemma sort_values_sorted (l : list A) :
    StronglySorted (λ x y, leb x y = true) (sort_values leb l).
  Proof.
    induction l as [|a t IH]; cbn; [constructor|].
    by apply insert_sorted_sorted.
  Qed.

  (** Sorting a frame that is already in order leaves every row where it
      is, rows with equal keys included. *)
Lemma sort_values_sorted_id (l : list A) :
    StronglySorted (λ x y, leb x y = true) l → sort_values leb l = l.
  Proof.
    induction 1 as [|a t Hs IH Ha]; cbn; [done|].
    rewrite IH. destruct Ha as [|b t' Hab _]; cbn; [done|]. by rewrite Hab.
  Qed.
End SortingFacts.

Lemma player_id_leb_total (a b : option Z) :
  player_id_leb a b = true ∨ player_id_leb b a = true.
Proof. destruct a, b; cbn; try tauto. lia. Qed.

Lemma player_frame_leb_total (a b : PlayerFrame) :
  player_frame_leb a b = true ∨ player_frame_leb b a = true.
Proof.
  unfold player_frame_leb.
  destruct (player_id a), (player_id b); cbn; try tauto;
    repeat match goal with |- context [(?x <=? ?y)%Z] =>
      destruct (Z.leb_spec x y) end; try tauto; lia.
Qed.

Lemma player_frame_leb_trans (a b c : PlayerFrame) :
  player_frame_leb a b = true → player_frame_leb b c = true →
  player_frame_leb a c = true.
Proof.
  unfold player_frame_leb.
  destruct (player_id a), (player_id b), (player_id c); cbn; try done;
    repeat match goal with |- context [(?x <=? ?y)%Z] =>
      destruct (Z.leb_spec x y) end; try done; lia.
Qed.

Lemma player_frame_leb_Some (a b : PlayerFrame) (u v : Z) :
  player_frame_leb a b = true → player_id a = Some u → player_id b = Some v →
  (u < v)%Z ∨ (u = v ∧ (frame a ≤ frame b)%Z).
Proof.
  unfold player_frame_leb. intros H Ha Hb. rewrite Ha, Hb in H. cbn in H.
  repeat match type of H with context [(?x <=? ?y)%Z] =>
    destruct (Z.leb_spec x y) end; try done; lia.
Qed.


(** ** Order of the detected sprints *)

Lemma StronglySorted_weaken {A} (R R' : relation A) (l : list A) :
  (∀ a b, a ∈ l → b ∈ l → R a b → R' a b) →
  StronglySorted R l → StronglySorted R' l.
Proof.
  intros Himp Hs. induction Hs as [|a t Hs IH Ha]; [constructor|].
  constructor.
  - apply IH. intros x y Hx Hy. apply Himp; by right.
  - apply Forall_forall. intros b Hb. apply Himp; [left|by right|].
    by eapply Forall_forall in Ha.
Qed.

Lemma StronglySorted_of_fmap {A B} (f : A → B) (R : relation B) (l : list A) :
  StronglySorted R (f <$> l) → StronglySorted (λ a b, R (f a) (f b)) l.
Proof.
  induction l as [|a t IH]; cbn; intros Hs; [constructor|].
  apply StronglySorted_inv in Hs as [Hs Ha]. constructor; [by apply IH|].
  apply Forall_forall. intros b Hb.
  eapply Forall_forall in Ha; [exact Ha|]. by apply list_elem_of_fmap_2.
Qed.

Lemma StronglySorted_omap {A B} (f : A → option B) (R : relation A)
    (R' : relation B) (l : list A) :
  (∀ a b c d, R a b → f a = Some c → f b = Some d → R' c d) →
  StronglySorted R l → StronglySorted R' (omap f l).
Proof.
  intros Himp Hs. induction Hs as [|a t Hs IH Ha]; cbn; [constructor|].
  destruct (f a) as [c|] eqn:Hc; [|done]. constructor; [done|].
  apply Forall_forall. intros d Hd.
  apply list_elem_of_omap in Hd as (b & Hb & Hfb).
  eapply Himp; [|exact Hc|exact Hfb]. by eapply Forall_forall in Ha.
Qed.

Lemma unique_elem (x : Z) (l : list Z) : x ∈ unique l ↔ x ∈ l.
Proof.
  induction l as [|a t IH]; cbn; [done|].
  rewrite !elem_of_cons, list_elem_of_filter, IH.
  destruct (decide (x = a)); tauto.
Qed.

Lemma unique_sorted (l : list Z) :
  StronglySorted Z.le l → StronglySorted Z.lt (unique l).
Proof.
  induction 1 as [|a t Hs IH Ha]; cbn; [constructor|].
  constructor.
  - eapply StronglySorted_sublist; [apply sublist_filter|done].
  - apply Forall_forall. intros x Hx.
    apply list_elem_of_filter in Hx as [Hne Hx]. rewrite unique_elem in Hx.
    eapply Forall_forall in Ha; [|exact Hx]. lia.
Qed.

Lemma player_ids_sorted (pf : list PlayerFrame) :
  StronglySorted (λ a b, player_frame_leb a b = true) pf →
  StronglySorted Z.le (omap player_id pf).
Proof.
  apply StronglySorted_omap. intros a b u v Hab Hu Hv.
  destruct (player_frame_leb_Some a b u v Hab Hu Hv); lia.
Qed.

Lemma player_track_sorted (pf : list PlayerFrame) (pid : Z) :
  StronglySorted (λ a b, player_frame_leb a b = true) pf →
  StronglySorted Z.le
    (frame <$> filter (λ r, player_id r = Some pid) pf).
Proof.
  intros Hs. apply StronglySorted_fmap with
    (R1 := λ a b, (frame a ≤ frame b)%Z); [done|].
  eapply StronglySorted_weaken;
    [|eapply StronglySorted_sublist; [apply sublist_filter|exact Hs]].
  intros a b Ha Hb Hab.
  apply list_elem_of_filter in Ha as [Ha _].
  apply list_elem_of_filter in Hb as [Hb _].
  destruct (player_frame_leb_Some a b pid pid Hab Ha Hb); lia.
Qed.

Lemma length_diff_from (prev : option Q) (l : list (option Q)) :
  length (diff_from prev l) = length l.
Proof.
  revert prev. induction l as [|c t IH]; intros prev; cbn; [done|].
  by rewrite IH.
Qed.

Lemma length_calculate_distances (np_sqrt : Q → Q) (pdf : list PlayerFrame) :
  length (calculate_distances np_sqrt pdf) = length pdf.
Proof.
  unfold calculate_distances, diff.
  rewrite length_zip_with, !length_diff_from, !length_map.
  rewrite (Permutation_length (sort_values_perm frame_leb pdf)). lia.
Qed.



Lemma StronglySorted_lookup_lt {A} (R : relation A) (l : list A)
    (i j : nat) (a b : A) :
  StronglySorted R l → i < j → l !! i = Some a → l !! j = Some b → R a b.
Proof.
  intros Hs. revert i j. induction Hs as [|x t Hs IH Hx]; intros i j Hij Hi Hj.
  - done.
  - destruct j as [|j]; [lia|]. cbn in Hj. destruct i as [|i].
    + cbn in Hi. injection Hi as <-.
      eapply Forall_forall in Hx; [exact Hx|].
      by eapply list_elem_of_lookup_2.
    + cbn in Hi. eapply (IH i j); [lia|done|done].
Qed.



Lemma assign_sprint_id_lookup (m : string) (l : list (Z * SprintCandidate))
    (i : nat) (s : Sprint) :
  assign_sprint_id m l !! i = Some s ↔
  ∃ pc, l !! i = Some pc
        ∧ s = {| match_id := m; sprint_player_id := pc.1;
                 sprint_run := pc.2; sprint_id := Z.of_nat i |}.
Proof.
  unfold assign_sprint_id. rewrite list_lookup_imap.
  destruct (l !! i) as [pc|]; cbn.
  - split; [intros [= <-]; by exists pc|]. by intros (pc' & [= <-] & ->).
  - split; [done|]. by intros (pc' & ? & _).
Qed.



(** ** Reproducibility *)

Lemma NoDup_fmap_eq {A B} (f : A → B) (l : list A) (x y : A) :
  NoDup (f <$> l) → x ∈ l → y ∈ l → f x = f y → x = y.
Proof.
  induction l as [|a t IH]; cbn; [by intros _ ?%elem_of_nil|].
  intros [Ha Ht]%NoDup_cons Hx Hy Hxy.
  apply elem_of_cons in Hx as [->|Hx]; apply elem_of_cons in Hy as [->|Hy].
  - done.
  - destruct Ha. rewrite Hxy. by apply list_elem_of_fmap_2.
  - destruct Ha. rewrite <- Hxy. by apply list_elem_of_fmap_2.
  - by apply IH.
Qed.



(** ** The detector as a whole: where its sprints come from *)

Lemma elem_of_flat_map {A B} (f : A → list B) (l : list A) (y : B) :
  y ∈ flat_map f l ↔ ∃ x, x ∈ l ∧ y ∈ f x.
Proof.
  rewrite list_elem_of_In, in_flat_map. split.
  - intros (x & Hx & Hy). exists x. by rewrite !list_elem_of_In.
  - intros (x & Hx & Hy). exists x. by rewrite <- !list_elem_of_In.
Qed.


(** The rows the loop over players works on, for a sprint of the result. *)
Lemma detect_sprints_elem (np_sqrt : Q → Q) (t : list TrackingRow) (m : string)
    (fps : Z) (th : Q) (out : list Sprint) (s : Sprint) :
  detect_sprints np_sqrt t m fps th = Some out → s ∈ out →
  ∃ pf, pf ≡ₚ explode_player_tracking t
        ∧ StronglySorted (λ a b, player_frame_leb a b = true) pf
        ∧ Some (sprint_player_id s) ∈ player_id <$> pf
        ∧ sprint_run s ∈ detect_player np_sqrt fps th pf (sprint_player_id s).
Proof.
  unfold detect_sprints.
  destruct (explode_player_tracking t) as [|r rs] eqn:E; [done|].
  intros [= <-] Hs. exists (sort_values player_frame_leb (r :: rs)).
  split; [apply sort_values_perm|]. split.
  { apply sort_values_sorted;
      [apply player_frame_leb_total|apply player_frame_leb_trans]. }
  apply list_elem_of_lookup in Hs as [i Hi].
  apply assign_sprint_id_lookup in Hi as ([pid c] & Hi & ->). cbn.
  apply list_elem_of_lookup_2 in Hi. unfold sprints_list in Hi.
  apply elem_of_flat_map in Hi as (pid' & Hpid & Hc).
  apply list_elem_of_fmap in Hc as (c' & [= -> ->] & Hc).
  split; [|done].
  apply unique_elem, list_elem_of_omap in Hpid as (x & Hx & Hpx).
  apply list_elem_of_fmap. by exists x.
Qed.

Lemma detect_player_elem (np_sqrt : Q → Q) (fps : Z) (th : Q)
    (pf : list PlayerFrame) (pid : Z) (c : SprintCandidate) :
  c ∈ detect_player np_sqrt fps th pf pid →
  let pdf := filter (λ r, player_id r = Some pid) pf in
  smooth_window ≤ length pdf
  ∧ validate c = true
  ∧ c ∈ candidates fps th
          (zip (frame <$> pdf)
               (speed_smooth fps (calculate_distances np_sqrt pdf))).
Proof.
  unfold detect_player. cbn zeta.
  destruct (length _ <? smooth_window) eqn:E; [by intros ?%elem_of_nil|].
  apply Nat.ltb_ge in E. unfold player_sprints.
  intros [Hv Hc]%list_elem_of_filter. done.
Qed.

Lemma candidates_elem (fps : Z) (th : Q) (pdf : list SpeedRow)
    (c : SprintCandidate) :
  c ∈ candidates fps th pdf ↔
  ∃ k run, (k, run) ∈ sprint_groups th pdf ∧ summarise fps run = Some c.
Proof.
  unfold candidates. rewrite list_elem_of_omap. split.
  - intros ([k run] & Hg & Hc). by exists k, run.
  - intros (k & run & Hg & Hc). by exists (k, run).
Qed.


(** X2.  Whatever the tracking data, every sprint detect_sprints returns
    has passed the validator: its average speed is within 24.5..29 km/h,
    its peak speed within 26..33 km/h and its distance at least 7 m. *)
Theorem detected_sprints_within_bounds
    (np_sqrt : Q → Q) (t : list TrackingRow) (m : string) (fps : Z) (th : Q)
    (out : list Sprint) :
  detect_sprints np_sqrt t m fps th = Some out →
  Forall (λ s, within_bounds (sprint_run s)) out.
Proof.
  intros Hout. apply Forall_forall. intros s Hs.
  destruct (detect_sprints_elem _ _ _ _ _ _ _ Hout Hs) as (pf & _ & _ & _ & Hc).
  apply detect_player_elem in Hc as (_ & Hv & _).
  by apply validate_within_bounds.
Qed.

Lemma detected_sprints_within_bounds_witness :
  Forall (λ s, within_bounds (sprint_run s)) sample_sprints.
Proof.
  apply (detected_sprints_within_bounds sample_sqrt sample_tracking "m1" 10 (245 # 10)).
  by vm_compute.
Defined.

(** X3.  A player with fewer than 11 rows in the tracking data is skipped:
    no sprint of the result belongs to that player. *)
Theorem short_track_yields_no_sprint
    (np_sqrt : Q → Q) (t : list TrackingRow) (m : string) (fps : Z) (th : Q)
    (out : list Sprint) (pid : Z) :
  detect_sprints np_sqrt t m fps th = Some out →
  length (filter (λ r, player_id r = Some pid) (explode_player_tracking t)) < 11 →
  Forall (λ s, sprint_player_id s ≠ pid) out.
Proof.
  intros Hout Hlen. apply Forall_forall. intros s Hs Heq. subst pid.
  destruct (detect_sprints_elem _ _ _ _ _ _ _ Hout Hs) as (pf & Hperm & _ & _ & Hc).
  apply detect_player_elem in Hc as (Hlong & _).
  rewrite Hperm in Hlong. unfold smooth_window in Hlong. lia.
Qed.

Lemma short_track_witness :
  Forall (λ s, sprint_player_id s ≠ 3%Z) sample_mixed_sprints.
Proof.
  apply (short_track_yields_no_sprint sample_sqrt sample_mixed_tracking "m1" 10 (245 # 10)).
  - by vm_compute.
  - vm_compute. lia.
Defined.
(** ** Bounds kept by the smoothing statistics *)

Lemma nth_Q_elem (l : list Q) (i : nat) : i < length l → nth_Q l i ∈ l.
Proof. intros. apply list_elem_of_In. by apply nth_In. Qed.

Lemma inject_nat_pos (n : nat) : 0 < n → (0 < inject_Z (Z.of_nat n))%Q.
Proof. intros. change 0%Q with (inject_Z 0). rewrite <- Zlt_Qlt. lia. Qed.

Lemma Qsum_bounds (lo hi : Q) (l : list Q) :
  Forall (λ x, (lo <= x <= hi)%Q) l →
  (inject_Z (Z.of_nat (length l)) * lo <= Qsum l
   <= inject_Z (Z.of_nat (length l)) * hi)%Q.
Proof.
  induction 1 as [|x l Hx _ IH].
  - change (inject_Z (Z.of_nat (length (@nil Q)))) with 0%Q.
    change (Qsum []) with 0%Q. lra.
  - cbn [length]. rewrite Nat2Z.inj_succ, <- Z.add_1_r, inject_Z_plus.
    change (Qsum (x :: l)) with (x + Qsum l)%Q.
    change (inject_Z 1) with 1%Q. lra.
Qed.

Lemma mean_bounds (lo hi : Q) (l : list Q) :
  l ≠ [] → Forall (λ x, (lo <= x <= hi)%Q) l → (lo <= mean l <= hi)%Q.
Proof.
  intros Hne Hl. pose proof (Qsum_bounds lo hi l Hl) as [H1 H2].
  assert (0 < inject_Z (Z.of_nat (length l)))%Q as Hn.
  { apply inject_nat_pos. destruct l; [done|cbn; lia]. }
  unfold mean. split.
  - apply Qle_shift_div_l; [done|]. lra.
  - apply Qle_shift_div_r; [done|]. lra.
Qed.

Lemma sorted_cells_bounds (lo hi : Q) (l : list Q) (i : nat) :
  Forall (λ x, (lo <= x <= hi)%Q) l → i < length l →
  (lo <= nth_Q (sort_values Qle_bool l) i <= hi)%Q.
Proof.
  intros Hl Hi. rewrite <- (sort_values_perm Qle_bool l) in Hl, Hi.
  rewrite Forall_forall in Hl. by apply Hl, nth_Q_elem.
Qed.

Lemma median_bounds (lo hi : Q) (l : list Q) :
  l ≠ [] → Forall (λ x, (lo <= x <= hi)%Q) l → (lo <= median l <= hi)%Q.
Proof.
  intros Hne Hl. unfold median.
  rewrite (Permutation_length (sort_values_perm Qle_bool l)).
  assert (0 < length l) as Hn by (destruct l; [done|cbn; lia]).
  destruct (Nat.even (length l)) eqn:E.
  - assert (2 ≤ length l) as H2.
    { destruct (length l) as [|[|n]]; [lia|done|lia]. }
    pose proof (sorted_cells_bounds lo hi l (length l / 2 - 1) Hl) as Ha.
    pose proof (sorted_cells_bounds lo hi l (length l / 2) Hl) as Hb.
    assert (length l / 2 < length l) as Hh by (apply Nat.div_lt; lia).
    specialize (Ha ltac:(lia)). specialize (Hb Hh).
    cbv zeta. split; [apply Qle_shift_div_l|apply Qle_shift_div_r]; lra.
  - apply sorted_cells_bounds; [done|]. apply Nat.div_lt; lia.
Qed.

Lemma quantile_bounds (lo hi : Q) (num den : nat) (l : list Q) :
  l ≠ [] → 0 < den → num ≤ den →
  Forall (λ x, (lo <= x <= hi)%Q) l → (lo <= quantile num den l <= hi)%Q.
Proof.
  intros Hne Hden Hnum Hl. unfold quantile.
  rewrite (Permutation_length (sort_values_perm Qle_bool l)).
  assert (0 < length l) as Hn by (destruct l; [done|cbn; lia]).
  cbv zeta.
  set (pos := num * (length l - 1)).
  assert (pos / den ≤ length l - 1) as Hlo.
  { apply Nat.Div0.div_le_upper_bound. unfold pos. nia. }
  pose proof (sorted_cells_bounds lo hi l (pos / den) Hl ltac:(lia)) as Ha.
  pose proof (sorted_cells_bounds lo hi l
                (Nat.min (pos / den + 1) (length l - 1)) Hl ltac:(lia)) as Hb.
  set (a := nth_Q _ (pos / den)) in *.
  set (b := nth_Q _ (Nat.min _ _)) in *.
  set (f := (inject_Z (Z.of_nat (pos mod den)) / inject_Z (Z.of_nat den))%Q).
  assert (0 <= f <= 1)%Q as Hf.
  { pose proof (inject_nat_pos den Hden) as Hd.
    pose proof (Nat.mod_upper_bound pos den ltac:(lia)) as Hm.
    unfold f. split.
    - apply Qle_shift_div_l; [done|]. rewrite Qmult_0_l.
      change 0%Q with (inject_Z 0). rewrite <- Zle_Qle. lia.
    - apply Qle_shift_div_r; [done|]. rewrite Qmult_1_l.
      rewrite <- Zle_Qle. lia. }
  split; nra.
Qed.

Lemma window_at_sublist {A} (w : nat) (l : list A) (i : nat) :
  window_at w l i `sublist_of` l.
Proof.
  unfold window_at. cbv zeta.
  etrans; [apply sublist_take|apply sublist_drop].
Qed.

Lemma window_stat_bounds (f : list Q → Q) (lo hi : Q) (cells : list (option Q)) :
  (∀ l, l ≠ [] → Forall (λ x, (lo <= x <= hi)%Q) l → (lo <= f l <= hi)%Q) →
  Forall (cell_within lo hi) cells →
  cell_within lo hi (window_stat f cells).
Proof.
  intros Hf Hc v. unfold window_stat.
  destruct (dropna cells) as [|x xs] eqn:E; [done|]. intros [= <-].
  apply Hf; [done|]. rewrite <- E. apply Forall_forall. intros y Hy.
  apply dropna_elem in Hy. rewrite Forall_forall in Hc. by apply (Hc _ Hy).
Qed.

Lemma rolling_bounds (f : list Q → Q) (w : nat) (lo hi : Q) (l : list (option Q)) :
  (∀ l, l ≠ [] → Forall (λ x, (lo <= x <= hi)%Q) l → (lo <= f l <= hi)%Q) →
  Forall (cell_within lo hi) l →
  Forall (cell_within lo hi) (rolling f w l).
Proof.
  intros Hf Hl. unfold rolling. apply Forall_forall. intros c Hc.
  apply list_elem_of_fmap in Hc as (i & -> & _).
  apply window_stat_bounds; [done|].
  apply Forall_forall. intros x Hx. rewrite Forall_forall in Hl. apply Hl.
  by eapply elem_of_sublist; [|apply (window_at_sublist w l i)].
Qed.

Lemma cells_bounded_below (hi : Q) (l : list (option Q)) :
  Forall (λ c, ∀ v, c = Some v → (v <= hi)%Q) l →
  ∃ lo, Forall (cell_within lo hi) l.
Proof.
  induction 1 as [|c l Hc _ [lo IH]].
  - exists 0%Q. constructor.
  - destruct c as [x|].
    + destruct (Qlt_le_dec x lo) as [Hlt|Hge].
      * exists x. constructor.
        -- intros v [= <-]. split; [lra|by apply Hc].
        -- eapply Forall_impl; [exact IH|]. intros c Hv v ->.
           destruct (Hv v eq_refl). split; lra.
      * exists lo. constructor; [|done].
        intros v [= <-]. split; [done|by apply Hc].
    + exists lo. constructor; [|done]. by intros v [=].
Qed.

Lemma speeds_kmh_capped (fps : Z) (distances : list (option Q)) :
  Forall (λ c, ∀ v, c = Some v → (v <= 32)%Q) (speeds_kmh fps distances).
Proof.
  unfold speeds_kmh, clip_upper. apply Forall_forall. intros c Hc v ->.
  apply list_elem_of_fmap in Hc as ([x|] & Hv & _); [|done].
  cbn in Hv. injection Hv as ->.
  destruct (Qle_bool x 32) eqn:E; [by apply Qle_bool_imp_le|lra].
Qed.

Lemma speeds_kmh_nonneg (fps : Z) (distances : list (option Q)) :
  (0 ≤ fps)%Z → Forall (λ c, ∀ d, c = Some d → (0 <= d)%Q) distances →
  Forall (λ c, ∀ v, c = Some v → (0 <= v)%Q) (speeds_kmh fps distances).
Proof.
  intros Hfps Hd. apply Forall_forall. intros c Hc v ->.
  apply list_elem_of_lookup in Hc as [i Hi].
  rewrite speeds_kmh_lookup in Hi.
  destruct (distances !! i) as [[d|]|] eqn:E; cbn in Hi; [|done..].
  destruct (Qltb 1 d); [done|]. injection Hi as Hi.
  assert (0 <= d)%Q as Hd0.
  { rewrite Forall_forall in Hd. eapply Hd; [|done].
    by eapply list_elem_of_lookup_2. }
  assert (0 <= inject_Z fps)%Q as Hf.
  { change 0%Q with (inject_Z 0). by rewrite <- Zle_Qle. }
  assert (0 <= d * inject_Z fps * (36 # 10))%Q as Hs by nra.
  cbv zeta in Hi. destruct (Qle_bool _ 32); subst v; [done|lra].
Qed.

Lemma speed_smooth_within (fps : Z) (lo hi : Q) (distances : list (option Q)) :
  Forall (cell_within lo hi) (speeds_kmh fps distances) →
  Forall (cell_within lo hi) (speed_smooth fps distances).
Proof.
  intros H. unfold speed_smooth, rolling_mean, rolling_median.
  apply rolling_bounds; [apply mean_bounds|].
  apply rolling_bounds; [apply median_bounds|]. done.
Qed.

Lemma speed_smooth_le_cap (fps : Z) (distances : list (option Q)) (v : Q) :
  Some v ∈ speed_smooth fps distances → (v <= 32)%Q.
Proof.
  intros Hv.
  destruct (cells_bounded_below 32 _ (speeds_kmh_capped fps distances)) as [lo Hlo].
  apply speed_smooth_within in Hlo. rewrite Forall_forall in Hlo.
  by destruct (Hlo _ Hv v eq_refl).
Qed.

(** X4.  No smoothed speed exceeds the 32 km/h cap, whatever distances
    go in, and with a non-negative frame rate and non-negative distances
    none is negative: smoothing never leaves the range of the clipped
    speeds. *)
Theorem speed_smooth_stays_in_range (fps : Z) (distances : list (option Q)) :
  Forall (λ c, ∀ v, c = Some v → (v <= 32)%Q) (speed_smooth fps distances)
  ∧ ((0 ≤ fps)%Z →
     Forall (λ c, ∀ d, c = Some d → (0 <= d)%Q) distances →
     Forall (cell_within 0 32) (speed_smooth fps distances)).
Proof.
  split.
  - apply Forall_forall. intros c Hc v ->. by eapply speed_smooth_le_cap.
  - intros Hfps Hd. apply speed_smooth_within.
    pose proof (speeds_kmh_nonneg fps distances Hfps Hd) as Hlo.
    pose proof (speeds_kmh_capped fps distances) as Hhi.
    rewrite Forall_forall in Hlo, Hhi. apply Forall_forall.
    intros c Hc v ->. split; [by eapply Hlo|by eapply Hhi].
Qed.

(** X5.  Every candidate run the segmenter summarises from the smoothed
    speeds has its average and its peak speed between the threshold and
    the 32 km/h cap, whatever the frames and distances; so the validator's
    peak-speed ceiling of 33 km/h never rejects a candidate. *)
Theorem candidate_speeds_between_threshold_and_cap
    (fps fps' : Z) (th : Q) (frames : list Z) (distances : list (option Q)) :
  Forall (λ c, (th <= avg_speed_kmh c <= 32)%Q
               ∧ (th <= max_speed_kmh c <= 32)%Q
               ∧ Qltb 33 (max_speed_kmh c) = false)
         (candidates fps th (zip frames (speed_smooth fps' distances))).
Proof.
  apply Forall_forall. intros c Hc.
  apply candidates_elem in Hc as (k & run & Hg & Hc).
  apply sprint_group_rows in Hg as [_ Hrun].
  apply summarise_Some in Hc as (_ & H4 & ->). cbn.
  assert (Forall (λ x, (th <= x <= 32)%Q) (dropna run.*2)) as Hb.
  { apply Forall_forall. intros x Hx. apply dropna_elem in Hx.
    apply list_elem_of_fmap in Hx as ([fr s] & Hs & Hr). cbn in Hs. subst s.
    rewrite Forall_forall in Hrun. destruct (Hrun _ Hr) as [Hsp Hin].
    split.
    - unfold is_sprinting in Hsp. cbn in Hsp. by apply Qle_bool_imp_le.
    - eapply speed_smooth_le_cap. by eapply elem_of_zip_r. }
  assert (dropna run.*2 ≠ []) as Hne by (intros E; rewrite E in H4; cbn in H4; lia).
  pose proof (mean_bounds th 32 _ Hne Hb).
  pose proof (quantile_bounds th 32 9 10 _ Hne ltac:(lia) ltac:(lia) Hb) as Hq.
  split; [done|]. split; [done|]. apply Qltb_ge. lra.
Qed.
(** ** Where a sprint's frames come from *)

Lemma candidate_run (fps : Z) (th : Q) (pdf : list SpeedRow) (c : SprintCandidate) :
  c ∈ candidates fps th pdf →
  ∃ run, run ≠ [] ∧ 6 ≤ length run ∧ run `sublist_of` pdf
         ∧ Forall (λ r, is_sprinting th r.2 = true) run
         ∧ frame_start c = min_frame run.*1
         ∧ frame_end c = max_frame run.*1
         ∧ mid_frame c = Z.quot (frame_start c + frame_end c) 2.
Proof.
  intros Hc. apply candidates_elem in Hc as (k & run & Hg & Hc).
  apply summarise_Some in Hc as (H6 & _ & ->). cbn.
  exists run. pose proof (sprint_group_rows _ _ _ _ Hg) as [Hne Hrun].
  split; [done|]. split; [done|]. split; [|split; [|done]].
  - destruct (sprint_groups_structure th pdf) as (Hcat & _ & _).
    etrans; [|apply (sublist_filter (λ r : SpeedRow, is_sprinting th r.2 = true))].
    rewrite <- Hcat. apply list_elem_of_fmap_2 with (f := snd) in Hg. cbn in Hg.
    revert Hg. generalize ((sprint_groups th pdf).*2). intros gs Hg.
    induction gs as [|g gs IH]; [by apply elem_of_nil in Hg|].
    cbn. apply elem_of_cons in Hg as [->|Hg].
    + by apply sublist_inserts_r.
    + by apply sublist_inserts_l, IH.
  - eapply Forall_impl; [exact Hrun|]. by intros r [? _].
Qed.

Lemma frame_span (l : list Z) :
  l ≠ [] → (min_frame l ≤ max_frame l)%Z
           ∧ (min_frame l ≤ Z.quot (min_frame l + max_frame l) 2 ≤ max_frame l)%Z.
Proof.
  intros Hne. destruct (min_frame_spec l Hne) as [Hin Hmin].
  destruct (max_frame_spec l Hne) as [_ Hmax].
  assert (min_frame l ≤ max_frame l)%Z as Hle.
  { rewrite Forall_forall in Hmax. by apply Hmax. }
  split; [done|]. Z.to_euclidean_division_equations. lia.
Qed.

(** X6.  The frames a detected sprint starts and ends at are frames at
    which the tracking data holds a row for that player, and the sprint's
    mid_frame lies between them. *)
Theorem detected_sprint_frames_in_track
    (np_sqrt : Q → Q) (t : list TrackingRow) (m : string) (fps : Z) (th : Q)
    (out : list Sprint) :
  detect_sprints np_sqrt t m fps th = Some out →
  Forall (λ s,
    (∃ r1 r2,
        r1 ∈ explode_player_tracking t ∧ r2 ∈ explode_player_tracking t
        ∧ player_id r1 = Some (sprint_player_id s)
        ∧ player_id r2 = Some (sprint_player_id s)
        ∧ frame r1 = frame_start (sprint_run s)
        ∧ frame r2 = frame_end (sprint_run s))
    ∧ (frame_start (sprint_run s) ≤ mid_frame (sprint_run s)
       ≤ frame_end (sprint_run s))%Z) out.
Proof.
  intros Hout. apply Forall_forall. intros s Hs.
  destruct (detect_sprints_elem _ _ _ _ _ _ _ Hout Hs)
    as (pf & Hperm & _ & _ & Hc).
  apply detect_player_elem in Hc as (_ & _ & Hc).
  apply candidate_run in Hc as (run & Hne & _ & Hsub & _ & Hfs & Hfe & Hmid).
  assert (run.*1 ≠ []) as Hne1 by (by destruct run).
  assert (∀ f, f ∈ run.*1 →
            ∃ r, r ∈ explode_player_tracking t
                 ∧ player_id r = Some (sprint_player_id s) ∧ frame r = f) as Hrow.
  { intros f Hf. apply list_elem_of_fmap in Hf as ([f' v] & -> & Hr). cbn.
    eapply elem_of_sublist in Hr; [|exact Hsub].
    apply elem_of_zip_l, list_elem_of_fmap in Hr as (r & -> & Hr).
    apply list_elem_of_filter in Hr as [Hpid Hr].
    exists r. by rewrite <- Hperm. }
  destruct (min_frame_spec _ Hne1) as [Hmin _].
  destruct (max_frame_spec _ Hne1) as [Hmax _].
  destruct (Hrow _ Hmin) as (r1 & ? & ? & ?).
  destruct (Hrow _ Hmax) as (r2 & ? & ? & ?).
  split.
  - exists r1, r2. rewrite Hfs, Hfe. done.
  - rewrite Hmid, Hfs, Hfe. by apply frame_span.
Qed.

Lemma detected_sprint_frames_witness :
  Forall (λ s,
    (∃ r1 r2,
        r1 ∈ explode_player_tracking sample_tracking
        ∧ r2 ∈ explode_player_tracking sample_tracking
        ∧ player_id r1 = Some (sprint_player_id s)
        ∧ player_id r2 = Some (sprint_player_id s)
        ∧ frame r1 = frame_start (sprint_run s)
        ∧ frame r2 = frame_end (sprint_run s))
    ∧ (frame_start (sprint_run s) ≤ mid_frame (sprint_run s)
       ≤ frame_end (sprint_run s))%Z) sample_sprints.
Proof.
  apply (detected_sprint_frames_in_track sample_sqrt sample_tracking "m1" 10 (245 # 10)).
  by vm_compute.
Defined.
(** ** The groups of the segmenter are the maximal sprinting runs *)

Lemma close_run_nonempty (cur : list SpeedRow) : cur ≠ [] → close_run cur = [cur].
Proof. by destruct cur. Qed.

Lemma groups_runs (th : Q) (pdf : list SpeedRow) :
  ∀ acc (done : list (nat * list SpeedRow)),
    (∀ cur, cur ≠ [] → Forall (λ g, g.1 < acc) done →
       (foldl (λ gs ka, add_to_group ka.1 ka.2 gs) (done ++ [(acc, cur)])
          (filter (λ kr : nat * SpeedRow, is_sprinting th kr.2.2 = true)
             (zip (sprint_group_from (Some true) acc
                     (map (λ r : SpeedRow, is_sprinting th r.2) pdf)) pdf))).*2
       = done.*2 ++ maximal_runs th cur pdf)
    ∧ (∀ prev, prev ≠ Some true → Forall (λ g, g.1 ≤ acc) done →
       (foldl (λ gs ka, add_to_group ka.1 ka.2 gs) done
          (filter (λ kr : nat * SpeedRow, is_sprinting th kr.2.2 = true)
             (zip (sprint_group_from prev acc
                     (map (λ r : SpeedRow, is_sprinting th r.2) pdf)) pdf))).*2
       = done.*2 ++ maximal_runs th [] pdf).
Proof.
  induction pdf as [|r t IH]; intros acc done.
  - split.
    + intros cur Hcur _. cbn. by rewrite fmap_app, close_run_nonempty.
    + intros prev _ _. cbn. by rewrite app_nil_r.
  - split.
    + intros cur Hcur Hdone. cbn [map sprint_group_from zip zip_with maximal_runs].
      destruct (is_sprinting th r.2) eqn:E; cbn [changed xorb].
      * rewrite filter_cons, decide_True by done. cbn [foldl fst snd].
        rewrite add_to_group_last by done.
        apply (proj1 (IH acc done)); [by destruct cur|done].
      * rewrite filter_cons, decide_False by (cbn; congruence).
        rewrite (proj2 (IH (S acc) (done ++ [(acc, cur)])) (Some false));
          [|done|].
        -- by rewrite fmap_app, close_run_nonempty, <- app_assoc.
        -- apply Forall_app. split.
           ++ eapply Forall_impl; [exact Hdone|]. intros g Hg; cbn in *; lia.
           ++ repeat constructor.
    + intros prev Hprev Hdone. cbn [map sprint_group_from zip zip_with maximal_runs].
      assert (Forall (λ g : nat * list SpeedRow, g.1 < S acc) done) as Hlt.
      { eapply Forall_impl; [exact Hdone|]. intros g Hg; cbn in *; lia. }
      destruct (is_sprinting th r.2) eqn:E.
      * assert (changed prev true = true) as ->.
        { destruct prev as [[]|]; done. }
        rewrite filter_cons, decide_True by done. cbn [foldl fst snd].
        rewrite add_to_group_new by done.
        by apply (proj1 (IH (S acc) done)).
      * rewrite filter_cons, decide_False by (cbn; congruence).
        cbn [close_run app].
        apply (proj2 (IH _ done)); [done|].
        eapply Forall_impl; [exact Hdone|]. intros g Hg; cbn in *.
        destruct (changed prev false); lia.
Qed.

Lemma sprint_groups_runs (th : Q) (pdf : list SpeedRow) :
  (sprint_groups th pdf).*2 = maximal_runs th [] pdf.
Proof.
  unfold sprint_groups, groupby, sprint_group.
  by rewrite (proj2 (groups_runs th pdf 0 []) None).
Qed.

Lemma maximal_runs_spec (th : Q) (pdf cur run : list SpeedRow) :
  Forall (λ r, is_sprinting th r.2 = true) cur →
  run ∈ maximal_runs th cur pdf →
  ∃ pre post,
    cur ++ pdf = pre ++ run ++ post
    ∧ run ≠ []
    ∧ Forall (λ r, is_sprinting th r.2 = true) run
    ∧ (∀ r, last pre = Some r → is_sprinting th r.2 = false)
    ∧ (∀ r, head post = Some r → is_sprinting th r.2 = false).
Proof.
  revert cur. induction pdf as [|r t IH]; intros cur Hcur Hrun.
  - cbn in Hrun. destruct cur as [|c cur]; [by apply elem_of_nil in Hrun|].
    apply list_elem_of_singleton in Hrun as ->.
    exists [], []. by rewrite !app_nil_r.
  - cbn in Hrun. destruct (is_sprinting th r.2) eqn:E.
    + destruct (IH (cur ++ [r])) as (pre & post & Heq & H); [|done|].
      { apply Forall_app. split; [done|]. by repeat constructor. }
      exists pre, post. by rewrite <- Heq, <- app_assoc.
    + apply elem_of_app in Hrun as [Hrun|Hrun].
      * destruct cur as [|c cur]; [by apply elem_of_nil in Hrun|].
        apply list_elem_of_singleton in Hrun as ->.
        exists [], (r :: t). split; [done|]. split; [done|]. split; [done|].
        split; [done|]. by intros r' [= <-].
      * destruct (IH [] ltac:(constructor) Hrun)
          as (pre & post & Heq & Hne & Hall & Hpre & Hpost).
        exists (cur ++ r :: pre), post. cbn in Heq.
        split; [by rewrite Heq, <- app_assoc|].
        split; [done|]. split; [done|]. split; [|done].
        intros r'. rewrite last_app. destruct pre as [|p pre].
        -- cbn. by intros [= <-].
        -- rewrite last_cons_cons. specialize (Hpre r').
           destruct (last (p :: pre)) as [y|] eqn:El.
           ++ intros [= <-]. by apply Hpre.
           ++ by apply last_None in El.
Qed.

(** X7.  The groups of the segmenter are the maximal runs of consecutive
    sprinting rows: together they hold every sprinting row of the track
    once and in order, and each group is a block of adjacent sprinting rows
    with no sprinting row directly before or after it. *)
Theorem sprint_groups_are_maximal_runs (th : Q) (pdf : list SpeedRow) :
  concat (sprint_groups th pdf).*2
  = filter (λ r : SpeedRow, is_sprinting th r.2 = true) pdf
  ∧ Forall (λ g : nat * list SpeedRow,
      ∃ pre post,
        pdf = pre ++ g.2 ++ post
        ∧ g.2 ≠ []
        ∧ Forall (λ r, is_sprinting th r.2 = true) g.2
        ∧ (∀ r, last pre = Some r → is_sprinting th r.2 = false)
        ∧ (∀ r, head post = Some r → is_sprinting th r.2 = false))
      (sprint_groups th pdf).
Proof.
  split; [apply sprint_groups_structure|].
  apply Forall_forall. intros [k run] Hg. cbn.
  apply (maximal_runs_spec th pdf [] run); [constructor|].
  rewrite <- sprint_groups_runs. by apply (list_elem_of_fmap_2 snd) in Hg.
Qed.
(** ** Sprints of one player: disjoint, and at least six frames long *)

Lemma StronglySorted_le_NoDup (l : list Z) :
  StronglySorted Z.le l → NoDup l → StronglySorted Z.lt l.
Proof.
  induction 1 as [|a l Hs IH Ha]; intros Hnd; [constructor|].
  apply NoDup_cons in Hnd as [Hnotin Hnd]. constructor; [by apply IH|].
  apply Forall_forall. intros b Hb.
  eapply Forall_forall in Ha; [|exact Hb].
  assert (a ≠ b) by (by intros ->). lia.
Qed.

Lemma player_track_strict (pf : list PlayerFrame) (pid : Z) :
  StronglySorted (λ a b, player_frame_leb a b = true) pf →
  NoDup (row_key <$> pf) →
  StronglySorted Z.lt (frame <$> filter (λ r, player_id r = Some pid) pf).
Proof.
  intros Hs Hnd. apply StronglySorted_le_NoDup; [by apply player_track_sorted|].
  apply NoDup_fmap_2_strong.
  - intros x y Hx Hy Hf.
    apply list_elem_of_filter in Hx as [Hpx Hx].
    apply list_elem_of_filter in Hy as [Hpy Hy].
    apply (NoDup_fmap_eq row_key pf); [done..|].
    unfold row_key. by rewrite Hpx, Hpy, Hf.
  - apply NoDup_filter. by eapply NoDup_fmap_1.
Qed.

Lemma concat_sorted {A} (R : relation A) (gs : list (list A)) :
  StronglySorted R (concat gs) →
  StronglySorted (λ g h, ∀ x y, x ∈ g → y ∈ h → R x y) gs.
Proof.
  induction gs as [|g gs IH]; cbn; intros Hs; [constructor|].
  apply StronglySorted_app in Hs as (Hlt & _ & Hs').
  constructor; [by apply IH|].
  apply Forall_forall. intros h Hh x y Hx Hy. apply Hlt; [done|].
  apply elem_of_concat. by exists h.
Qed.

Lemma candidates_disjoint (fps : Z) (th : Q) (pdf : list SpeedRow) :
  StronglySorted Z.lt (pdf.*1) →
  StronglySorted (λ c d, (frame_end c < frame_start d)%Z)
                 (candidates fps th pdf).
Proof.
  intros Hs. unfold candidates.
  destruct (sprint_groups_structure th pdf) as (Hc & _ & _).
  assert (StronglySorted
            (λ g h : list SpeedRow, ∀ x y, x ∈ g → y ∈ h → (x.1 < y.1)%Z)
            (sprint_groups th pdf).*2) as Hgs.
  { apply concat_sorted. rewrite Hc.
    apply (StronglySorted_of_fmap fst Z.lt).
    eapply StronglySorted_sublist; [|exact Hs].
    apply fmap_sublist, sublist_filter. }
  apply StronglySorted_of_fmap in Hgs.
  eapply StronglySorted_omap; [|exact Hgs].
  intros g h c d Hgh Hc1 Hc2. cbn in *.
  apply summarise_Some in Hc1 as (H6 & _ & ->).
  apply summarise_Some in Hc2 as (H6' & _ & ->). cbn.
  assert (g.2.*1 ≠ []) as Hn1 by (destruct (g.2); [cbn in H6; lia|done]).
  assert (h.2.*1 ≠ []) as Hn2 by (destruct (h.2); [cbn in H6'; lia|done]).
  destruct (max_frame_spec _ Hn1) as [Hmax _].
  destruct (min_frame_spec _ Hn2) as [Hmin _].
  apply list_elem_of_fmap in Hmax as (x & -> & Hx).
  apply list_elem_of_fmap in Hmin as (y & -> & Hy).
  by apply Hgh.
Qed.

Lemma player_speed_rows_frames (np_sqrt : Q → Q) (fps : Z)
    (pdf : list PlayerFrame) :
  (zip (frame <$> pdf) (speed_smooth fps (calculate_distances np_sqrt pdf))).*1
  = frame <$> pdf.
Proof.
  apply fst_zip.
  by rewrite length_speed_smooth, length_calculate_distances, length_fmap.
Qed.

Lemma detect_player_disjoint (np_sqrt : Q → Q) (fps : Z) (th : Q)
    (pf : list PlayerFrame) (pid : Z) :
  StronglySorted (λ a b, player_frame_leb a b = true) pf →
  NoDup (row_key <$> pf) →
  StronglySorted (λ c d, (frame_end c < frame_start d)%Z)
                 (detect_player np_sqrt fps th pf pid).
Proof.
  intros Hs Hnd. unfold detect_player.
  destruct (_ <? smooth_window); [constructor|].
  unfold player_sprints.
  eapply StronglySorted_sublist; [apply sublist_filter|].
  apply candidates_disjoint.
  rewrite (player_speed_rows_frames np_sqrt fps).
  by apply player_track_strict.
Qed.

Lemma sprints_list_sorted_by (R : relation SprintCandidate)
    (np_sqrt : Q → Q) (fps : Z) (th : Q) (pf : list PlayerFrame) :
  StronglySorted (λ a b, player_frame_leb a b = true) pf →
  (∀ pid, StronglySorted R (detect_player np_sqrt fps th pf pid)) →
  StronglySorted
    (λ pc qd : Z * SprintCandidate,
       (pc.1 < qd.1)%Z ∨ (pc.1 = qd.1 ∧ R pc.2 qd.2))
    (sprints_list np_sqrt fps th pf).
Proof.
  intros Hs HR. unfold sprints_list.
  pose proof (unique_sorted _ (player_ids_sorted pf Hs)) as Hpids.
  induction Hpids as [|p ps Hps IH Hp]; cbn; [constructor|].
  apply StronglySorted_app. split; [|split; [|done]].
  - intros [p1 c] [q d] H1 H2. cbn.
    apply list_elem_of_fmap in H1 as (c' & [= -> ->] & _).
    apply elem_of_flat_map in H2 as (q' & Hq' & H2).
    apply list_elem_of_fmap in H2 as (d' & [= -> ->] & _).
    left. by eapply Forall_forall in Hp.
  - eapply StronglySorted_fmap; [|by apply HR].
    intros c d Hcd. cbn. by right.
Qed.

Lemma StronglySorted_lookup_intro {A} (R : relation A) (l : list A) :
  (∀ i j a b, i < j → l !! i = Some a → l !! j = Some b → R a b) →
  StronglySorted R l.
Proof.
  induction l as [|x l IH]; intros H; [constructor|]. constructor.
  - apply IH. intros i j a b Hij Hi Hj. apply (H (S i) (S j)); [lia|done..].
  - apply Forall_forall. intros y Hy.
    apply list_elem_of_lookup in Hy as [j Hj].
    apply (H 0 (S j)); [lia|done..].
Qed.

Lemma sorted_span (l : list Z) :
  StronglySorted Z.lt l → l ≠ [] →
  (Z.of_nat (length l) ≤ max_frame l - min_frame l + 1)%Z.
Proof.
  induction 1 as [|a t Hs IH Ha]; intros Hne; [done|].
  destruct (min_frame_spec (a :: t) Hne) as [_ Hmin].
  destruct (max_frame_spec (a :: t) Hne) as [_ Hmax].
  apply Forall_cons in Hmin as [Hmin_a Hmin], Hmax as [Hmax_a Hmax].
  destruct t as [|b t]; [cbn [length]; lia|].
  specialize (IH ltac:(done)).
  destruct (min_frame_spec (b :: t) ltac:(done)) as [Hin_min _].
  destruct (max_frame_spec (b :: t) ltac:(done)) as [Hin_max _].
  eapply Forall_forall in Ha; [|exact Hin_min].
  eapply Forall_forall in Hmax; [|exact Hin_max].
  cbn [length] in *. lia.
Qed.

Lemma candidate_duration (fps : Z) (th : Q) (pdf : list SpeedRow)
    (c : SprintCandidate) :
  c ∈ candidates fps th pdf →
  duration_s c
  = (inject_Z (frame_end c - frame_start c + 1) / inject_Z fps)%Q.
Proof.
  intros Hc. apply candidates_elem in Hc as (k & run & _ & Hc).
  by apply summarise_Some in Hc as (_ & _ & ->).
Qed.

(** X8.  When the tracking data holds no (player, frame) pair twice, the
    sprints of one player never overlap: in the list detect_sprints
    returns, an earlier sprint of a player ends before a later sprint of
    that player starts. *)
Theorem player_sprints_do_not_overlap
    (np_sqrt : Q → Q) (t : list TrackingRow) (m : string) (fps : Z) (th : Q)
    (out : list Sprint) :
  detect_sprints np_sqrt t m fps th = Some out →
  NoDup (row_key <$> explode_player_tracking t) →
  StronglySorted
    (λ s u, sprint_player_id s = sprint_player_id u →
            (frame_end (sprint_run s) < frame_start (sprint_run u))%Z) out.
Proof.
  unfold detect_sprints.
  destruct (explode_player_tracking t) as [|r rs] eqn:E; [done|].
  intros [= <-] Hnd.
  set (pf := sort_values player_frame_leb (r :: rs)).
  assert (StronglySorted (λ a b, player_frame_leb a b = true) pf) as Hs.
  { apply sort_values_sorted;
      [apply player_frame_leb_total|apply player_frame_leb_trans]. }
  assert (NoDup (row_key <$> pf)) as Hnd'.
  { unfold pf. by rewrite sort_values_perm. }
  pose proof (sprints_list_sorted_by
                (λ c d, (frame_end c < frame_start d)%Z) np_sqrt fps th pf Hs
                (λ pid, detect_player_disjoint np_sqrt fps th pf pid Hs Hnd'))
    as Hsorted.
  apply StronglySorted_lookup_intro. intros i j s u Hij Hi Hj Hpid.
  apply assign_sprint_id_lookup in Hi as (pc & Hi & ->).
  apply assign_sprint_id_lookup in Hj as (qd & Hj & ->). cbn in *.
  destruct (StronglySorted_lookup_lt _ _ _ _ _ _ Hsorted Hij Hi Hj)
    as [Hlt|[_ Hlt]]; [lia|done].
Qed.

Lemma player_sprints_do_not_overlap_witness :
  StronglySorted
    (λ s u, sprint_player_id s = sprint_player_id u →
            (frame_end (sprint_run s) < frame_start (sprint_run u))%Z)
    sample_double_sprints.
Proof.
  apply (player_sprints_do_not_overlap
           sample_sqrt sample_double_tracking "m1" 10 (245 # 10)).
  - by vm_compute.
  - apply (bool_decide_unpack _). by vm_compute.
Defined.

(** X9.  When the tracking data holds no (player, frame) pair twice,
    every sprint detect_sprints returns covers at least six frames: its
    frame_end is at least five frames after its frame_start, and at a
    positive frame rate its duration is at least 6 / fps seconds. *)
Theorem detected_sprint_spans_six_frames
    (np_sqrt : Q → Q) (t : list TrackingRow) (m : string) (fps : Z) (th : Q)
    (out : list Sprint) :
  detect_sprints np_sqrt t m fps th = Some out →
  NoDup (row_key <$> explode_player_tracking t) →
  Forall (λ s,
    (frame_start (sprint_run s) + 5 ≤ frame_end (sprint_run s))%Z
    ∧ ((0 < fps)%Z → (6 / inject_Z fps <= duration_s (sprint_run s))%Q)) out.
Proof.
  intros Hout Hnd. apply Forall_forall. intros s Hs.
  destruct (detect_sprints_elem _ _ _ _ _ _ _ Hout Hs)
    as (pf & Hperm & Hsorted & _ & Hc).
  apply detect_player_elem in Hc as (_ & _ & Hc).
  pose proof (candidate_duration _ _ _ _ Hc) as Hdur.
  apply candidate_run in Hc as (run & Hne & H6 & Hsub & _ & Hfs & Hfe & _).
  assert (StronglySorted Z.lt run.*1) as Hstrict.
  { eapply StronglySorted_sublist; [apply fmap_sublist, Hsub|].
    rewrite (player_speed_rows_frames np_sqrt fps).
    apply player_track_strict; [done|]. by rewrite Hperm. }
  assert (run.*1 ≠ []) as Hne1 by (by destruct run).
  pose proof (sorted_span _ Hstrict Hne1) as Hspan.
  rewrite length_fmap in Hspan. rewrite <- Hfs, <- Hfe in Hspan.
  split; [lia|]. intros Hfps. rewrite Hdur.
  assert (0 < inject_Z fps)%Q as Hq.
  { change 0%Q with (inject_Z 0). by rewrite <- Zlt_Qlt. }
  apply Qle_shift_div_l; [done|].
  unfold Qdiv. rewrite <- Qmult_assoc, (Qmult_comm (/ _)), Qmult_inv_r, Qmult_1_r
    by lra.
  change 6%Q with (inject_Z 6). rewrite <- Zle_Qle. lia.
Qed.

Lemma detected_sprint_spans_witness :
  Forall (λ s,
    (frame_start (sprint_run s) + 5 ≤ frame_end (sprint_run s))%Z
    ∧ ((0 < 10)%Z → (6 / inject_Z 10 <= duration_s (sprint_run s))%Q))
    sample_double_sprints.
Proof.
  apply (detected_sprint_spans_six_frames
           sample_sqrt sample_double_tracking "m1" 10 (245 # 10)).
  - by vm_compute.
  - apply (bool_decide_unpack _). by vm_compute.
Defined.
(** ** Enrichment as a whole *)

Lemma enrich_sprint_other (phases_df : list row) (sprint e : row) (k : string) :
  enrich_sprint phases_df sprint = Some e → k ∉ phase_columns →
  e !! k = sprint !! k.
Proof.
  unfold enrich_sprint. intros He Hk.
  destruct (sprint !! "match_id") as [m|]; [|done].
  destruct (sprint !! "mid_frame") as [mid|]; [|done]. cbn in He.
  destruct (phase_match phases_df m mid) as [[|p ps]|]; [| |done]; cbn in He.
  - injection He as <-. by apply no_phase_other.
  - by eapply with_phase_other.
Qed.

Lemma sample_sprints_df_ok : Forall sprint_row_ok sample_sprints_df.
Proof.
  apply Forall_cons; split; [|apply Forall_nil_2].
  split; [eexists; reflexivity | exists (VInt 20); by vm_compute].
Qed.

Lemma sample_phase_ok (fs fe team : Z) :
  phase_row_ok (sample_phase fs fe team "team_possession_lead_to_shot").
Proof.
  split; [eexists; reflexivity|]. split; [exists (VInt fs); by vm_compute|].
  split; [exists (VInt fe); by vm_compute|].
  repeat split; eexists; reflexivity.
Qed.

Lemma sample_phases_sorted_ok : Forall phase_row_ok sample_phases_sorted.
Proof.
  unfold sample_phases_sorted.
  apply Forall_cons; split; [apply sample_phase_ok|].
  apply Forall_cons; split; [apply sample_phase_ok|apply Forall_nil_2].
Qed.

(** X10.  On well-formed sprint and phase rows enrichment fails in one
    case only: when there is no sprint at all.  The frame built from an
    empty list has no columns, so the lookup of
    team_in_possession_phase_type raises; a match without sprints cannot
    be passed through enrichment. *)
Theorem enrichment_fails_only_without_sprints (sprints_df phases_df : list row) :
  Forall sprint_row_ok sprints_df → Forall phase_row_ok phases_df →
  (enrich_sprints_with_phases sprints_df phases_df = None ↔ sprints_df = []).
Proof.
  intros Hs Hp. split.
  - intros Hnone. destruct sprints_df as [|s ss]; [done|].
    destruct (enrich_total (s :: ss) phases_df ltac:(done) Hs Hp) as (out & Hout & _).
    congruence.
  - by intros ->.
Qed.

Lemma enrichment_fails_only_witness :
  enrich_sprints_with_phases sample_sprints_df sample_phases_sorted = None
  ↔ sample_sprints_df = [].
Proof.
  apply (enrichment_fails_only_without_sprints sample_sprints_df sample_phases_sorted).
  - apply sample_sprints_df_ok.
  - apply sample_phases_sorted_ok.
Defined.

(** X11.  Enrichment returns one record per sprint, in the order of the
    sprints.  A record differs from its sprint row in eight columns only:
    the seven phase columns and is_high_value_phase, which every record
    has; all other columns are the sprint's, unchanged. *)
Theorem enrichment_adds_phase_columns_only (sprints_df phases_df out : list row) :
  enrich_sprints_with_phases sprints_df phases_df = Some out →
  Forall2 (λ s e,
      (∀ k, k ∉ "is_high_value_phase" :: phase_columns → e !! k = s !! k)
      ∧ (∀ k, k ∈ "is_high_value_phase" :: phase_columns → is_Some (e !! k)))
    sprints_df out.
Proof.
  intros Hout. eapply Forall2_impl; [by apply enrich_rows|].
  intros s o (e & He & ->). split.
  - intros k [Hk1 Hk2]%not_elem_of_cons.
    rewrite add_high_value_other by done. by eapply enrich_sprint_other.
  - intros k [->|Hk]%elem_of_cons.
    + unfold add_high_value. rewrite lookup_insert_eq. by eexists.
    + rewrite add_high_value_other.
      * by eapply enriched_has_columns.
      * intros ->. by apply high_value_not_phase_column.
Qed.

Lemma enrichment_adds_phase_columns_witness :
  ∃ out,
    enrich_sprints_with_phases sample_sprints_df sample_phases_sorted = Some out
    ∧ Forall2 (λ s e,
          (∀ k, k ∉ "is_high_value_phase" :: phase_columns → e !! k = s !! k)
          ∧ (∀ k, k ∈ "is_high_value_phase" :: phase_columns → is_Some (e !! k)))
        sample_sprints_df out.
Proof.
  destruct (enrich_total sample_sprints_df sample_phases_sorted ltac:(done)
              sample_sprints_df_ok sample_phases_sorted_ok) as (out & Hout & _).
  exists out. split; [done|].
  by apply (enrichment_adds_phase_columns_only
              sample_sprints_df sample_phases_sorted out).
Defined.

(** X12.  In every record enrichment returns, is_high_value_phase is a
    boolean, and it is true exactly when the record's
    team_in_possession_phase_type is one of the strings create, finish,
    quick_break and transition; a missing phase type gives false. *)
Theorem high_value_flag_follows_phase_type (sprints_df phases_df out : list row) :
  enrich_sprints_with_phases sprints_df phases_df = Some out →
  Forall (λ e,
      ∃ b, e !! "is_high_value_phase" = Some (VBool b)
           ∧ (b = true ↔
              ∃ s, e !! "team_in_possession_phase_type" = Some (VStr s)
                   ∧ s ∈ ["create"; "finish"; "quick_break"; "transition"]))
    out.
Proof.
  intros Hout. apply enrich_rows in Hout.
  apply Forall_forall. intros o Ho. apply list_elem_of_lookup in Ho as [i Hi].
  destruct (Forall2_lookup_r _ _ _ _ _ Hout Hi) as (s & _ & e & He & ->).
  destruct (enriched_has_columns phases_df s e "team_in_possession_phase_type" He)
    as [v Hv].
  { unfold phase_columns. left. }
  exists (isin v high_value_phases). unfold add_high_value.
  rewrite lookup_insert_eq, lookup_insert_ne by done. rewrite Hv. cbn.
  split; [done|]. unfold isin, high_value_phases. destruct v as [|b|z|q|s'].
  1-4: split; [done|by intros (s' & [=] & _)].
  rewrite bool_decide_eq_true. split.
  - intros Hin. by exists s'.
  - by intros (s'' & [= <-] & Hin).
Qed.

Lemma high_value_flag_witness :
  ∃ out,
    enrich_sprints_with_phases sample_sprints_df sample_phases_sorted = Some out
    ∧ Forall (λ e,
        ∃ b, e !! "is_high_value_phase" = Some (VBool b)
             ∧ (b = true ↔
                ∃ s, e !! "team_in_possession_phase_type" = Some (VStr s)
                     ∧ s ∈ ["create"; "finish"; "quick_break"; "transition"]))
      out.
Proof.
  destruct (enrich_total sample_sprints_df sample_phases_sorted ltac:(done)
              sample_sprints_df_ok sample_phases_sorted_ok) as (out & Hout & _).
  exists out. split; [done|].
  by apply (high_value_flag_follows_phase_type
              sample_sprints_df sample_phases_sorted out).
Defined.

(** X13.  The flags cannot be added straight after enrichment: the rows
    detect_sprints gives carry no team_id, enrichment adds none, and
    add_sprint_context_flags raises on the missing column.  The metadata
    merge has to come in between. *)
Theorem context_flags_need_team_id
    (sprints : list Sprint) (phases_df enriched : list row) :
  enrich_sprints_with_phases (sprint_to_row <$> sprints) phases_df = Some enriched →
  add_sprint_context_flags enriched = None.
Proof.
  intros Hout. pose proof (enrich_rows _ _ _ Hout) as Hrows.
  unfold enrich_sprints_with_phases in Hout.
  destruct (mapM _ _) as [[|e0 es]|]; [done| |done]. cbn in Hout.
  injection Hout as <-.
  destruct sprints as [|s ss]; [by apply Forall2_nil_cons_inv in Hrows|].
  apply Forall2_cons_1 in Hrows as [(e & He & Heq) _].
  unfold add_sprint_context_flags. cbn [map mapM].
  assert (add_flags (add_high_value e0) = None) as ->; [|done].
  rewrite Heq. unfold add_flags.
  assert (add_high_value e !! "team_id" = None) as ->; [|done].
  rewrite add_high_value_other by done.
  rewrite (enrich_sprint_other _ _ _ "team_id" He).
  - unfold sprint_to_row, candidate_to_row. by simplify_map_eq.
  - unfold phase_columns. rewrite !not_elem_of_cons. repeat split; try done.
    apply not_elem_of_nil.
Qed.

Lemma context_flags_need_team_id_witness :
  ∃ enriched,
    enrich_sprints_with_phases (sprint_to_row <$> [sample_sprint])
      sample_phases_sorted = Some enriched
    ∧ add_sprint_context_flags enriched = None.
Proof.
  destruct (enrich_total sample_sprints_df sample_phases_sorted ltac:(done)
              sample_sprints_df_ok sample_phases_sorted_ok) as (out & Hout & _).
  exists out. split; [done|].
  by apply (context_flags_need_team_id [sample_sprint] sample_phases_sorted out).
Defined.

Lemma add_flags_spec (r f : row) :
  add_flags r = Some f →
  ∃ team tip third,
    r !! "team_id" = Some team ∧ r !! "team_in_possession_id" = Some tip
    ∧ r !! "third_end" = Some third
    ∧ f !! "is_attacking_sprint" = Some (VBool (pd_eq team tip))
    ∧ f !! "is_defensive_sprint" = Some (VBool (negb (pd_eq team tip)))
    ∧ f !! "in_attacking_third" = Some (VBool (pd_eq third (VStr "attacking_third")))
    ∧ ∀ k, k ∉ ["is_attacking_sprint"; "is_defensive_sprint"; "in_attacking_third"] →
           f !! k = r !! k.
Proof.
  unfold add_flags. intros Hf.
  destruct (r !! "team_id") as [team|]; [|done].
  destruct (r !! "team_in_possession_id") as [tip|]; [|done].
  destruct (r !! "third_end") as [third|]; [|done].
  cbn in Hf. injection Hf as <-. exists team, tip, third.
  repeat (split; [by simplify_map_eq|]).
  intros k Hk. rewrite !not_elem_of_cons in Hk. destruct Hk as (? & ? & ? & _).
  by rewrite !lookup_insert_ne by done.
Qed.

Lemma add_flags_is_Some (r : row) :
  is_Some (r !! "team_id") → is_Some (r !! "team_in_possession_id") →
  is_Some (r !! "third_end") → is_Some (add_flags r).
Proof. intros [a Ha] [b Hb] [c Hc]. unfold add_flags. rewrite Ha, Hb, Hc. by eexists. Qed.

(** X14.  When add_sprint_context_flags succeeds it returns the rows it
    was given, in order, with three boolean columns set and every other
    column unchanged.  Each row is flagged attacking or defensive and
    never both: is_defensive_sprint is the negation of
    is_attacking_sprint.  A row whose team_id or team_in_possession_id is
    missing is flagged defensive. *)
Theorem context_flags_are_complementary (sprints_df flagged : list row) :
  add_sprint_context_flags sprints_df = Some flagged →
  Forall2 (λ r f,
      (∃ b, f !! "is_attacking_sprint" = Some (VBool b)
            ∧ f !! "is_defensive_sprint" = Some (VBool (negb b))
            ∧ (r !! "team_id" = Some VNone
               ∨ r !! "team_in_possession_id" = Some VNone → b = false))
      ∧ (∃ b, f !! "in_attacking_third" = Some (VBool b)
              ∧ (b = true → r !! "third_end" = Some (VStr "attacking_third")))
      ∧ ∀ k, k ∉ ["is_attacking_sprint"; "is_defensive_sprint"; "in_attacking_third"] →
             f !! k = r !! k)
    sprints_df flagged.
Proof.
  unfold add_sprint_context_flags. intros Hf. apply mapM_Some in Hf.
  eapply Forall2_impl; [exact Hf|]. intros r f Hrf.
  apply add_flags_spec in Hrf
    as (team & tip & third & Ht & Htip & Hth & Ha & Hd & H3 & Hother).
  split; [|split; [|done]].
  - exists (pd_eq team tip). split; [done|]. split; [done|].
    intros [H|H]; rewrite ?Ht, ?Htip in H; injection H as ->.
    + by destruct tip.
    + apply pd_eq_missing_r.
  - exists (pd_eq third (VStr "attacking_third")). split; [done|].
    rewrite Hth. destruct third as [|b|z|q|s]; try done. cbn.
    by intros ->%String.eqb_eq.
Qed.

Lemma context_flags_witness :
  ∃ flagged,
    add_sprint_context_flags [sample_flag_row] = Some flagged
    ∧ Forall2 (λ r f,
        (∃ b, f !! "is_attacking_sprint" = Some (VBool b)
              ∧ f !! "is_defensive_sprint" = Some (VBool (negb b))
              ∧ (r !! "team_id" = Some VNone
                 ∨ r !! "team_in_possession_id" = Some VNone → b = false))
        ∧ (∃ b, f !! "in_attacking_third" = Some (VBool b)
                ∧ (b = true → r !! "third_end" = Some (VStr "attacking_third")))
        ∧ ∀ k, k ∉ ["is_attacking_sprint"; "is_defensive_sprint"; "in_attacking_third"] →
               f !! k = r !! k)
      [sample_flag_row] flagged.
Proof.
  assert (is_Some (add_sprint_context_flags [sample_flag_row])) as [flagged Hf].
  { unfold add_sprint_context_flags. cbn [mapM].
    assert (is_Some (add_flags sample_flag_row)) as [f ->]; [|by eexists].
    apply add_flags_is_Some; eexists; reflexivity. }
  exists flagged. split; [done|].
  by apply (context_flags_are_complementary [sample_flag_row] flagged).
Defined.
(** ** Distances and speeds (src/eda.py) *)

Lemma frame_leb_total (a b : PlayerFrame) :
  frame_leb a b = true ∨ frame_leb b a = true.
Proof. unfold frame_leb. destruct (Z.leb_spec (frame a) (frame b)); [by left|right]. apply Z.leb_le. lia. Qed.

Lemma frame_leb_trans (a b c : PlayerFrame) :
  frame_leb a b = true → frame_leb b c = true → frame_leb a c = true.
Proof. unfold frame_leb. rewrite !Z.leb_le. lia. Qed.

Lemma sort_by_frame_sorted (l : list PlayerFrame) :
  StronglySorted (λ a b, (frame a ≤ frame b)%Z) (sort_values frame_leb l).
Proof.
  eapply StronglySorted_weaken;
    [|apply (sort_values_sorted frame_leb frame_leb_total frame_leb_trans)].
  intros a b _ _. unfold frame_leb. by rewrite Z.leb_le.
Qed.

(** Rows with pairwise distinct frames sort to the same frame whatever
    order they are supplied in. *)
Lemma sort_by_frame_order_independent (l1 l2 : list PlayerFrame) :
  l1 ≡ₚ l2 → NoDup (frame <$> l1) →
  sort_values frame_leb l1 = sort_values frame_leb l2.
Proof.
  intros Hperm Hnd.
  apply (StronglySorted_unique_strong (λ a b, frame_leb a b = true)).
  - intros x1 x2 H1 H2 H12 H21.
    rewrite sort_values_perm in H1. rewrite sort_values_perm, <- Hperm in H2.
    apply (NoDup_fmap_eq frame l1); try done.
    unfold frame_leb in *. rewrite Z.leb_le in H12, H21. lia.
  - apply sort_values_sorted; [apply frame_leb_total|apply frame_leb_trans].
  - apply sort_values_sorted; [apply frame_leb_total|apply frame_leb_trans].
  - by rewrite !sort_values_perm.
Qed.

Lemma diff_from_lookup_S (prev : option Q) (l : list (option Q)) (i : nat)
    (u v : option Q) :
  l !! i = Some u → l !! S i = Some v →
  diff_from prev l !! S i
  = Some (match v, u with
          | Some b, Some a => Some (b - a)%Q
          | _, _ => None
          end).
Proof.
  revert prev i. induction l as [|c t IH]; intros prev i Hu Hv; [done|].
  destruct i as [|i]; cbn in Hu, Hv |- *.
  - injection Hu as ->. destruct t as [|d t]; [done|]. cbn in Hv.
    by injection Hv as ->.
  - by apply IH.
Qed.

Lemma diff_lookup_0 (l : list (option Q)) (c : option Q) :
  l !! 0 = Some c → diff l !! 0 = Some None.
Proof. destruct l as [|d t]; [done|]. cbn. by destruct d. Qed.

(** X15.  calculate_distances does not depend on the order of the rows it
    is given, as long as no frame occurs twice: it sorts by frame before
    taking differences. *)
Theorem calculate_distances_order_independent
    (np_sqrt : Q → Q) (pt1 pt2 : list PlayerFrame) :
  pt1 ≡ₚ pt2 → NoDup (frame <$> pt1) →
  calculate_distances np_sqrt pt1 = calculate_distances np_sqrt pt2.
Proof.
  intros Hperm Hnd. unfold calculate_distances.
  by rewrite (sort_by_frame_order_independent pt1 pt2 Hperm Hnd).
Qed.

Lemma calculate_distances_order_witness :
  calculate_distances sample_sqrt (explode_player_tracking sample_two_rows)
  = calculate_distances sample_sqrt
      (explode_player_tracking sample_two_rows_swapped).
Proof.
  apply (calculate_distances_order_independent sample_sqrt).
  - cbn. apply perm_swap.
  - apply (bool_decide_unpack _). by vm_compute.
Defined.

(** X16.  calculate_distances returns one cell per row.  With the rows
    put in frame order, the first cell is missing and every later cell is
    the square root of dx*dx + dy*dy between a row and the row before it,
    missing as soon as one of the four coordinates is. *)
Theorem calculate_distances_cells (np_sqrt : Q → Q) (pt : list PlayerFrame) :
  ∃ sorted,
    sorted ≡ₚ pt
    ∧ StronglySorted (λ a b, (frame a ≤ frame b)%Z) sorted
    ∧ length (calculate_distances np_sqrt pt) = length pt
    ∧ (pt ≠ [] → calculate_distances np_sqrt pt !! 0 = Some None)
    ∧ ∀ i a b,
        sorted !! i = Some a → sorted !! S i = Some b →
        calculate_distances np_sqrt pt !! S i
        = Some (match pos_x a, pos_x b, pos_y a, pos_y b with
                | Some xa, Some xb, Some ya, Some yb =>
                    Some (np_sqrt ((xb - xa) * (xb - xa)
                                   + (yb - ya) * (yb - ya))%Q)
                | _, _, _, _ => None
                end).
Proof.
  exists (sort_values frame_leb pt).
  split; [apply sort_values_perm|]. split; [apply sort_by_frame_sorted|].
  split; [apply length_calculate_distances|]. unfold calculate_distances.
  set (sorted := sort_values frame_leb pt). cbv zeta.
  change (map pos_x sorted) with (pos_x <$> sorted).
  change (map pos_y sorted) with (pos_y <$> sorted). split.
  - intros Hne.
    assert (∃ a, sorted !! 0 = Some a) as [a Ha].
    { destruct sorted as [|a s] eqn:E; [|by exists a].
      pose proof (sort_values_perm frame_leb pt) as Hp. fold sorted in Hp.
      rewrite E in Hp. by apply Permutation_nil_l in Hp. }
    rewrite lookup_zip_with.
    rewrite (diff_lookup_0 (pos_x <$> sorted) (pos_x a)) by (by rewrite list_lookup_fmap, Ha).
    rewrite (diff_lookup_0 (pos_y <$> sorted) (pos_y a)) by (by rewrite list_lookup_fmap, Ha).
    done.
  - intros i a b Ha Hb. rewrite lookup_zip_with. unfold diff.
    rewrite (diff_from_lookup_S None (pos_x <$> sorted) i (pos_x a) (pos_x b))
      by (by rewrite list_lookup_fmap, ?Ha, ?Hb).
    rewrite (diff_from_lookup_S None (pos_y <$> sorted) i (pos_y a) (pos_y b))
      by (by rewrite list_lookup_fmap, ?Ha, ?Hb).
    cbn. by destruct (pos_x a), (pos_x b), (pos_y a), (pos_y b).
Qed.

Lemma fps_factor (d : Q) (fps : Z) :
  fps ≠ 0%Z →
  (d / (1 / inject_Z fps) * (SECONDS_TO_HOURS / METERS_TO_KM)
   == d * inject_Z fps * (36 # 10))%Q.
Proof.
  intros Hfps. unfold SECONDS_TO_HOURS, METERS_TO_KM.
  assert (¬ inject_Z fps == 0)%Q as Hq.
  { change 0%Q with (inject_Z 0). rewrite inject_Z_injective. done. }
  field. done.
Qed.

(** X17.  calculate_speeds raises exactly for fps = 0.  For any other
    frame rate it returns one cell per distance, missing where the
    distance is missing and otherwise equal to distance * fps * 3.6: the
    conversion detect_sprints writes inline. *)
Theorem calculate_speeds_matches_inline_conversion
    (np_sqrt : Q → Q) (pt : list PlayerFrame) (fps : Z) :
  (calculate_speeds np_sqrt pt fps = None ↔ fps = 0%Z)
  ∧ (fps ≠ 0%Z →
     ∃ speeds,
       calculate_speeds np_sqrt pt fps = Some speeds
       ∧ Forall2 (λ s k, match s, k with
                         | Some v, Some w => (v == w)%Q
                         | None, None => True
                         | _, _ => False
                         end)
           speeds (to_kmh fps (calculate_distances np_sqrt pt))).
Proof.
  unfold calculate_speeds. cbv zeta. split.
  - destruct (Z.eqb_spec fps 0); [done|]. split; [done|]. by intros ->.
  - intros Hfps. destruct (Z.eqb_spec fps 0); [done|].
    eexists. split; [done|]. unfold to_kmh.
    rewrite <- !list_fmap_compose.
    apply Forall2_fmap, Forall_Forall2_diag, Forall_forall.
    intros [d|] _; cbn; [|done]. by apply fps_factor.
Qed.
(** ** The robust maximum speed *)

Lemma list_min_max (l : list Q) :
  l ≠ [] → ∃ a b, a ∈ l ∧ b ∈ l ∧ Forall (λ x, (a <= x <= b)%Q) l.
Proof.
  induction l as [|x t IH]; [done|]. intros _.
  destruct t as [|y t].
  { exists x, x. split; [left|]. split; [left|]. repeat constructor; lra. }
  destruct (IH ltac:(done)) as (a & b & Ha & Hb & Hab).
  set (a' := if Qlt_le_dec x a then x else a).
  set (b' := if Qlt_le_dec b x then x else b).
  assert (a' <= a ∧ a' <= x ∧ a' ∈ x :: y :: t)%Q as (Ha1 & Ha2 & Ha3).
  { unfold a'. destruct (Qlt_le_dec x a); repeat split; try lra; [left|by right]. }
  assert (b <= b' ∧ x <= b' ∧ b' ∈ x :: y :: t)%Q as (Hb1 & Hb2 & Hb3).
  { unfold b'. destruct (Qlt_le_dec b x); repeat split; try lra; [left|by right]. }
  exists a', b'. split; [done|]. split; [done|]. constructor; [done|].
  eapply Forall_impl; [exact Hab|]. intros z Hz. cbn in Hz. lra.
Qed.

Lemma window_at_self {A} (w : nat) (l : list A) (i : nat) (x : A) :
  0 < w → l !! i = Some x → x ∈ window_at w l i.
Proof.
  intros Hw Hi. unfold window_at. cbv zeta.
  set (stop := i + (w - 1) / 2 + 1). set (start := stop - w).
  assert ((w - 1) / 2 < w) as Hh.
  { apply Nat.Div0.div_lt_upper_bound. lia. }
  apply list_elem_of_lookup. exists (i - start).
  rewrite lookup_take_lt by (unfold start, stop; lia).
  rewrite lookup_drop. replace (start + (i - start)) with i; [done|].
  unfold start, stop. lia.
Qed.

Lemma strictly_between_spec (lo hi : Q) (c : option Q) :
  strictly_between lo hi c = true ↔ ∃ v, c = Some v ∧ (lo < v)%Q ∧ (v < hi)%Q.
Proof.
  unfold strictly_between. destruct c as [v|].
  - rewrite andb_true_iff, !Qltb_lt. split.
    + intros [? ?]. by exists v.
    + by intros (v' & [= <-] & ? & ?).
  - split; [done|]. by intros (v & [=] & _).
Qed.

Lemma valid_cells (cap : Q) (speeds : list (option Q)) (c : option Q) :
  c ∈ filter (λ c, strictly_between 0 cap c = true) (Some <$> dropna speeds)
  ↔ ∃ v, c = Some v ∧ Some v ∈ speeds ∧ (0 < v)%Q ∧ (v < cap)%Q.
Proof.
  rewrite list_elem_of_filter, strictly_between_spec, list_elem_of_fmap. split.
  - intros ((v & -> & H0 & Hc) & (v' & [= <-] & Hv)).
    exists v. by rewrite <- dropna_elem.
  - intros (v & -> & Hv & H0 & Hc). split; [by exists v|].
    exists v. by rewrite dropna_elem.
Qed.

(** The smoothed series of a non-empty series of present cells: every window
    holds its own centre, so no cell of the result is missing, and the
    quantile stays between the smallest and the largest cell. *)
Lemma smoothed_quantile_range (window qnum qden : nat) (valid : list (option Q)) :
  0 < window → 0 < qden → qnum ≤ qden →
  valid ≠ [] → Forall is_Some valid →
  ∃ a b, Some a ∈ valid ∧ Some b ∈ valid
         ∧ (a <= quantile qnum qden (dropna (rolling median window valid)) <= b)%Q.
Proof.
  intros Hw Hden Hnum Hne Hsome.
  assert (dropna valid ≠ []) as Hne'.
  { destruct valid as [|[v|] t]; [done|done|].
    apply Forall_cons in Hsome as [[? [=]] _]. }
  destruct (list_min_max _ Hne') as (a & b & Ha & Hb & Hab).
  exists a, b. rewrite <- !dropna_elem. split; [done|]. split; [done|].
  assert (Forall (cell_within a b) valid) as Hcells.
  { apply Forall_forall. intros c Hc v ->. apply dropna_elem in Hc.
    rewrite Forall_forall in Hab. by apply Hab. }
  pose proof (rolling_bounds median window a b valid (median_bounds a b) Hcells)
    as Hroll.
  apply quantile_bounds; [|done|done|].
  - assert (∃ v0 t, valid = Some v0 :: t) as (v0 & t & E).
    { destruct valid as [|[v|] t]; [done|by eauto|].
      by apply Forall_cons in Hsome as [[? [=]] _]. }
    assert (0 < length valid) as Hlen by (rewrite E; cbn; lia).
    assert (is_Some (rolling median window valid !! 0)) as [s Hs].
    { apply lookup_lt_is_Some. by rewrite length_rolling. }
    pose proof Hs as Hs'. rewrite rolling_lookup in Hs' by done.
    injection Hs' as Hs'.
    assert (is_Some s) as [v ->].
    { rewrite <- Hs'. apply window_stat_is_Some.
      exists v0. apply window_at_self; [done|]. by rewrite E. }
    intros Hnil.
    assert (v ∈ dropna (rolling median window valid)) as Hin.
    { apply dropna_elem. by eapply list_elem_of_lookup_2. }
    rewrite Hnil in Hin. by apply elem_of_nil in Hin.
  - apply Forall_forall. intros x Hx. apply dropna_elem in Hx.
    rewrite Forall_forall in Hroll. by apply (Hroll _ Hx).
Qed.

Lemma clean_max_speed_range (speeds : list (option Q)) (window : nat) (cap : Q)
    (qnum qden : nat) :
  0 < window → 0 < qden → qnum ≤ qden →
  ∃ r, clean_max_speed_kmh (Some speeds) window cap qnum qden = Some r
       ∧ (r = 0%Q
          ∧ (∀ v, Some v ∈ speeds → ¬ ((0 < v)%Q ∧ (v < cap)%Q))
          ∨ ∃ a b, Some a ∈ speeds ∧ Some b ∈ speeds
                   ∧ (0 < a)%Q ∧ (a <= r)%Q ∧ (r <= b)%Q ∧ (b < cap)%Q).
Proof.
  intros Hw Hden Hnum. unfold clean_max_speed_kmh. cbv zeta.
  pose proof (valid_cells cap speeds) as Hvalid.
  destruct (filter _ _) as [|c t] eqn:E.
  - exists 0%Q. split; [done|]. left. split; [done|].
    intros v Hv [H0 Hc]. specialize (Hvalid (Some v)).
    apply (elem_of_nil (Some v)), Hvalid. by exists v.
  - destruct (Nat.eqb_spec window 0) as [->|_]; [lia|].
    destruct (Nat.eqb_spec qden 0) as [->|_]; [lia|].
    destruct (Nat.ltb_spec qden qnum) as [?|_]; [lia|]. cbn [orb].
    eexists. split; [done|]. right.
    destruct (smoothed_quantile_range window qnum qden (c :: t))
      as (a & b & Ha & Hb & Hab); [done..| |].
    { apply Forall_forall. intros x Hx.
      apply Hvalid in Hx as (v & -> & _). by eexists. }
    apply Hvalid in Ha as (a' & [= <-] & Ha & Ha0 & _).
    apply Hvalid in Hb as (b' & [= <-] & Hb & _ & Hbc).
    exists a, b. repeat split; try done; lra.
Qed.

(** X18.  For a window of at least one cell and a quantile in [0, 1],
    clean_max_speed_kmh returns 0 when no speed lies strictly between 0 and
    the cap, and otherwise a value between the smallest and the largest
    such speed, hence itself strictly between 0 and the cap: a spike above
    the cap never shows in the result. *)
Theorem clean_max_speed_in_valid_range
    (speeds : list (option Q)) (window : nat) (cap : Q) (qnum qden : nat) :
  0 < window → 0 < qden → qnum ≤ qden →
  ∃ r, clean_max_speed_kmh (Some speeds) window cap qnum qden = Some r
       ∧ ((∀ v, Some v ∈ speeds → ¬ ((0 < v)%Q ∧ (v < cap)%Q)) → r = 0%Q)
       ∧ ((∃ v, Some v ∈ speeds ∧ (0 < v)%Q ∧ (v < cap)%Q) →
          (0 < r)%Q ∧ (r < cap)%Q
          ∧ ∃ a b, Some a ∈ speeds ∧ Some b ∈ speeds
                   ∧ (0 < a)%Q ∧ (a <= r)%Q ∧ (r <= b)%Q ∧ (b < cap)%Q).
Proof.
  intros Hw Hden Hnum.
  destruct (clean_max_speed_range speeds window cap qnum qden Hw Hden Hnum)
    as (r & Hr & Hcase).
  exists r. split; [done|]. split.
  - intros Hnone.
    destruct Hcase as [[-> _]|(a & b & Ha & Hb & Ha0 & Har & Hrb & Hbc)]; [done|].
    destruct (Hnone a Ha). split; [done|lra].
  - intros (v & Hv & H0 & Hc).
    destruct Hcase as [[_ Hnone]|(a & b & Ha & Hb & Ha0 & Har & Hrb & Hbc)].
    + by destruct (Hnone v Hv).
    + split; [lra|]. split; [lra|]. by exists a, b.
Qed.

Lemma clean_max_speed_witness :
  ∃ r, clean_max_speed_kmh (Some sample_speeds) 3 40 99 100 = Some r
       ∧ ((∀ v, Some v ∈ sample_speeds → ¬ ((0 < v)%Q ∧ (v < 40)%Q)) → r = 0%Q)
       ∧ ((∃ v, Some v ∈ sample_speeds ∧ (0 < v)%Q ∧ (v < 40)%Q) →
          (0 < r)%Q ∧ (r < 40)%Q
          ∧ ∃ a b, Some a ∈ sample_speeds ∧ Some b ∈ sample_speeds
                   ∧ (0 < a)%Q ∧ (a <= r)%Q ∧ (r <= b)%Q ∧ (b < 40)%Q).
Proof.
  apply (clean_max_speed_in_valid_range sample_speeds 3 40 99 100); lia.
Defined.
(** ** Player summaries *)

Lemma minutes_div_60 (m : Q) :
  ((m <= 0 → Qltb 0 (m / 60) = false) ∧ (0 < m → Qltb 0 (m / 60) = true))%Q.
Proof.
  split; intros H.
  - apply Qltb_ge. apply Qle_shift_div_r; lra.
  - apply Qltb_lt. apply Qlt_shift_div_l; lra.
Qed.

(** X19.  get_player_summary never raises.  The summary names the
    player asked for and counts that player's rows; its max_speed_kmh lies
    in [0, 40); its avg_speed_kmh is 0 when minutes_played is not positive
    and otherwise times the hours played gives back distance_km; for a
    player who has rows, minutes from a lookup that lists the player are
    used as they are; and a player without rows gets zeros throughout. *)
Theorem get_player_summary_invariants
    (np_sqrt : Q → Q) (pt : list TrackedFrame) (pid : Z)
    (lookup : option (gmap Z Q)) (fps : positive) :
  ∃ s, get_player_summary np_sqrt pt pid lookup fps = Some s
    ∧ Summary.player_id s = pid
    ∧ Summary.frames_tracked s
      = length (filter (λ r, row_player_id r = Some pid) pt)
    ∧ (0 <= Summary.max_speed_kmh s)%Q ∧ (Summary.max_speed_kmh s < 40)%Q
    ∧ ((Summary.minutes_played s <= 0)%Q → Summary.avg_speed_kmh s = 0%Q)
    ∧ ((0 < Summary.minutes_played s)%Q →
       (Summary.avg_speed_kmh s * (Summary.minutes_played s / 60)
        == Summary.distance_km s)%Q)
    ∧ (∀ m q, Summary.frames_tracked s ≠ 0 →
              lookup = Some m → m !! pid = Some q →
              Summary.minutes_played s = q)
    ∧ (Summary.frames_tracked s = 0 →
       Summary.distance_km s = 0%Q ∧ Summary.avg_speed_kmh s = 0%Q
       ∧ Summary.max_speed_kmh s = 0%Q ∧ Summary.minutes_played s = 0%Q).
Proof.
  unfold get_player_summary. cbv zeta.
  set (player_data := filter (λ r, row_player_id r = Some pid) pt).
  destruct (Nat.eqb_spec (length player_data) 0) as [Hz|Hnz].
  - eexists. split; [done|]. cbn. rewrite Hz.
    repeat split; try done; try lra.
  - unfold calculate_speeds. cbv zeta. change (TRACKING_FPS =? 0)%Z with false.
    cbn [mbind option_bind].
    match goal with
    | |- context [clean_max_speed_kmh (Some ?l) 3 40 99 100] => set (valid := l)
    end.
    destruct (clean_max_speed_range valid 3 40 99 100 ltac:(lia) ltac:(lia)
                ltac:(lia)) as (r & Hr & Hcase).
    rewrite Hr. cbn [mbind option_bind]. eexists. split; [done|]. cbn.
    split; [done|]. split; [done|].
    split; [destruct Hcase as [[-> _]|(a & b & _ & _ & ? & ? & ? & ?)]; lra|].
    split; [destruct Hcase as [[-> _]|(a & b & _ & _ & ? & ? & ? & ?)]; lra|].
    match goal with
    | |- context [Qltb 0 (?m / 60)] => set (minutes := m)
    end.
    destruct (minutes_div_60 minutes) as [Hle Hlt].
    split; [intros H; by rewrite (Hle H)|].
    split; [|split].
    + intros H. rewrite (Hlt H).
      assert (0 < minutes / 60)%Q as Hh by (by apply Qltb_lt, Hlt).
      generalize dependent (minutes / 60)%Q. intros h _ _ Hh.
      generalize (Qsum (dropna (calculate_distances np_sqrt (tf_row <$> player_data)))
                  / METERS_TO_KM)%Q.
      intros d. field. lra.
    + intros m q _ -> Hq. unfold minutes. cbn. by rewrite Hq.
    + done.
Qed.

(** ** Match distance *)

Lemma match_distance_row_None (np_sqrt : Q → Q) (pt : list TrackedFrame)
    (lookup : gmap Z (option Q)) (fps : positive) (pid : Z) :
  match_distance_row np_sqrt pt lookup fps pid = None
  ↔ ¬ Exists (λ r, row_player_id r = Some pid) pt.
Proof.
  unfold match_distance_row. cbv zeta.
  destruct (filter _ pt) as [|r rs] eqn:E.
  - split; [|done]. intros _ Hex. apply Exists_exists in Hex as (r & Hr & Hp).
    assert (r ∈ filter (λ r, row_player_id r = Some pid) pt) as Hin
      by (by apply list_elem_of_filter).
    rewrite E in Hin. by apply elem_of_nil in Hin.
  - split; [done|]. intros Hno. destruct Hno. apply Exists_exists.
    assert (r ∈ filter (λ r, row_player_id r = Some pid) pt) as Hr
      by (rewrite E; left).
    apply list_elem_of_filter in Hr as [? ?]. by exists r.
Qed.

Lemma match_distance_row_Some (np_sqrt : Q → Q) (pt : list TrackedFrame)
    (lookup : gmap Z (option Q)) (fps : positive) (pid : Z) (d : DistanceRow.t) :
  match_distance_row np_sqrt pt lookup fps pid = Some d →
  DistanceRow.player_id d = pid
  ∧ DistanceRow.minutes_match d
    = match mjoin (lookup !! pid) with
      | Some minutes => minutes
      | None =>
          tracked_minutes
            (count_detected (filter (λ r, row_player_id r = Some pid) pt)) fps
      end
  ∧ DistanceRow.meters_per_minute_match d
    = (if Qltb 0 (DistanceRow.minutes_match d)
       then Some (DistanceRow.total_distance_m_match d
                  / DistanceRow.minutes_match d)%Q
       else None).
Proof.
  unfold match_distance_row. cbv zeta.
  destruct (filter _ pt) as [|r rs] eqn:E; [done|]. by intros [= <-].
Qed.

(** X20.  summarise_match_distance returns one row per requested player
    who has at least one row in the tracking data, in the order of the
    request and as often as requested; players without tracking rows are
    dropped silently. *)
Theorem summarise_match_distance_players
    (np_sqrt : Q → Q) (pt : list TrackedFrame) (player_ids : list Z)
    (match_meta : option Meta.Match) (fps : positive) :
  DistanceRow.player_id
    <$> summarise_match_distance np_sqrt pt player_ids match_meta fps
  = filter (λ pid, Exists (λ r, row_player_id r = Some pid) pt) player_ids.
Proof.
  unfold summarise_match_distance.
  induction player_ids as [|pid pids IH]; [done|]. cbn [omap list_omap].
  rewrite filter_cons.
  destruct (match_distance_row _ _ _ _ pid) as [d|] eqn:E.
  - rewrite decide_True.
    + apply match_distance_row_Some in E as [Hpid _].
      by rewrite fmap_cons, IH, Hpid.
    + destruct (decide (Exists (λ r, row_player_id r = Some pid) pt)); [done|].
      apply (match_distance_row_None np_sqrt pt
               (minutes_played_lookup match_meta) fps) in n. congruence.
  - rewrite decide_False; [done|]. by apply match_distance_row_None in E.
Qed.

Lemma add_minutes_other (acc : gmap Z (option Q)) (p : Meta.Player) (pid : Z) :
  Meta.id p ≠ pid → add_minutes acc p !! pid = acc !! pid.
Proof.
  intros Hne. unfold add_minutes.
  destruct (Meta.playing_time p) as [pt|]; [|done].
  destruct (Meta.total pt) as [tot|]; [|done]. by rewrite lookup_insert_ne.
Qed.

Lemma add_minutes_listed (acc : gmap Z (option Q)) (p : Meta.Player) :
  add_minutes acc p
  = match listed_minutes p with
    | Some v => <[Meta.id p := v]> acc
    | None => acc
    end.
Proof.
  unfold add_minutes, listed_minutes.
  destruct (Meta.playing_time p) as [pt|]; [|done]. cbn.
  by destruct (Meta.total pt).
Qed.

Lemma foldl_add_minutes_last (acc : gmap Z (option Q)) (after : list Meta.Player)
    (pid : Z) :
  Forall (λ q, Meta.id q = pid → listed_minutes q = None) after →
  foldl add_minutes acc after !! pid = acc !! pid.
Proof.
  revert acc. induction after as [|q after IH]; intros acc Hafter; [done|].
  apply Forall_cons in Hafter as [Hq Hafter]. cbn. rewrite IH by done.
  rewrite add_minutes_listed. destruct (decide (Meta.id q = pid)) as [Heq|Hne].
  - by rewrite (Hq Heq).
  - destruct (listed_minutes q); [by rewrite lookup_insert_ne|done].
Qed.

Lemma minutes_lookup_last_entry (listed before after : list Meta.Player)
    (p : Meta.Player) (v : option Q) :
  listed = before ++ p :: after → listed_minutes p = Some v →
  Forall (λ q, Meta.id q = Meta.id p → listed_minutes q = None) after →
  minutes_played_lookup (Some {| Meta.players := Some listed |}) !! Meta.id p
  = Some v.
Proof.
  intros -> Hp Hafter. unfold minutes_played_lookup. cbn.
  rewrite foldl_app. cbn. rewrite foldl_add_minutes_last by done.
  rewrite add_minutes_listed, Hp. by rewrite lookup_insert_eq.
Qed.

Lemma summarise_rows (np_sqrt : Q → Q) (pt : list TrackedFrame)
    (player_ids : list Z) (match_meta : option Meta.Match) (fps : positive)
    (d : DistanceRow.t) :
  d ∈ summarise_match_distance np_sqrt pt player_ids match_meta fps →
  ∃ pid, pid ∈ player_ids
         ∧ match_distance_row np_sqrt pt (minutes_played_lookup match_meta)
             fps pid = Some d.
Proof. unfold summarise_match_distance. by rewrite list_elem_of_omap. Qed.

(** X21.  When the metadata lists a player more than once, the minutes
    of the last entry that has a playing_time total are the ones used: every
    row summarise_match_distance returns for that player carries them as
    minutes_match, whatever the tracking data says. *)
Theorem official_minutes_take_precedence
    (np_sqrt : Q → Q) (pt : list TrackedFrame) (player_ids : list Z)
    (listed before after : list Meta.Player) (p : Meta.Player) (q : Q)
    (fps : positive) :
  listed = before ++ p :: after →
  listed_minutes p = Some (Some q) →
  Forall (λ e, Meta.id e = Meta.id p → listed_minutes e = None) after →
  Forall (λ d, DistanceRow.player_id d = Meta.id p →
               DistanceRow.minutes_match d = q)
    (summarise_match_distance np_sqrt pt player_ids
       (Some {| Meta.players := Some listed |}) fps).
Proof.
  intros Hlisted Hp Hafter. apply Forall_forall. intros d Hd Hid.
  apply summarise_rows in Hd as (pid & _ & Hd).
  apply match_distance_row_Some in Hd as (Hpid & -> & _).
  rewrite Hpid in Hid. subst pid. rewrite Hid.
  by rewrite (minutes_lookup_last_entry listed before after p (Some q)).
Qed.

Lemma official_minutes_witness :
  Forall (λ d, DistanceRow.player_id d = 7%Z →
               DistanceRow.minutes_match d = 45%Q)
    (summarise_match_distance sample_sqrt sample_tracked [9; 3; 7; 9]%Z
       (Some sample_meta) 10).
Proof.
  apply (official_minutes_take_precedence sample_sqrt sample_tracked
           [9; 3; 7; 9]%Z
           (default [] (Meta.players sample_meta))
           (take 2 (default [] (Meta.players sample_meta)))
           []
           {| Meta.id := 7;
              Meta.playing_time :=
                Some {| Meta.total :=
                          Some {| Meta.minutes_played := Some 45%Q |} |} |}
           45%Q 10).
  - reflexivity.
  - reflexivity.
  - apply Forall_nil_2.
Defined.

(** X22.  In every row summarise_match_distance returns,
    meters_per_minute_match is missing exactly when minutes_match is not
    positive, and otherwise times minutes_match gives back the total
    distance; when the metadata gives no minutes for the player,
    minutes_match is the number of detected frames divided by fps * 60. *)
Theorem meters_per_minute_needs_positive_minutes
    (np_sqrt : Q → Q) (pt : list TrackedFrame) (player_ids : list Z)
    (match_meta : option Meta.Match) (fps : positive) :
  Forall (λ d,
      (DistanceRow.meters_per_minute_match d = None
       ↔ (DistanceRow.minutes_match d <= 0)%Q)
      ∧ (∀ v, DistanceRow.meters_per_minute_match d = Some v →
              (v * DistanceRow.minutes_match d
               == DistanceRow.total_distance_m_match d)%Q)
      ∧ (mjoin (minutes_played_lookup match_meta !! DistanceRow.player_id d)
         = None →
         DistanceRow.minutes_match d
         = tracked_minutes
             (count_detected
                (filter (λ r, row_player_id r = Some (DistanceRow.player_id d)) pt))
             fps))
    (summarise_match_distance np_sqrt pt player_ids match_meta fps).
Proof.
  apply Forall_forall. intros d Hd.
  apply summarise_rows in Hd as (pid & _ & Hd).
  apply match_distance_row_Some in Hd as (-> & Hmin & ->).
  split; [|split].
  - destruct (Qltb 0 (DistanceRow.minutes_match d)) eqn:E.
    + apply Qltb_lt in E. split; [done|]. intros ?. lra.
    + apply Qltb_ge in E. done.
  - intros v. destruct (Qltb 0 (DistanceRow.minutes_match d)) eqn:E; [|done].
    apply Qltb_lt in E. intros [= <-]. field. lra.
  - intros Hnone. by rewrite Hmin, Hnone.
Qed.

(** ** From detection to enrichment *)

Lemma sprint_to_row_ok (s : Sprint) : sprint_row_ok (sprint_to_row s).
Proof.
  unfold sprint_row_ok, sprint_to_row, candidate_to_row. split.
  - exists (VStr (match_id s)). by simplify_map_eq.
  - exists (VInt (mid_frame (sprint_run s))). split; [by simplify_map_eq|done].
Qed.

(** X23.  Sprint records as detect_sprints builds them can always be
    enriched against well-formed phase rows, one record per sprint, unless
    there is no sprint: for the empty result of a match without sprints
    enrichment raises. *)
Theorem detected_sprints_can_be_enriched
    (sprints : list Sprint) (phases_df : list row) :
  Forall phase_row_ok phases_df →
  (sprints = [] →
   enrich_sprints_with_phases (sprint_to_row <$> sprints) phases_df = None)
  ∧ (sprints ≠ [] →
     ∃ enriched,
       enrich_sprints_with_phases (sprint_to_row <$> sprints) phases_df
       = Some enriched
       ∧ length enriched = length sprints).
Proof.
  intros Hp. split; [by intros ->|]. intros Hne.
  destruct (enrich_total (sprint_to_row <$> sprints) phases_df) as (e & He & Hlen).
  - by destruct sprints.
  - apply Forall_fmap, Forall_forall. intros s _. apply sprint_to_row_ok.
  - done.
  - exists e. by rewrite length_fmap in Hlen.
Qed.

Lemma detected_sprints_can_be_enriched_witness :
  (sample_sprints = [] →
   enrich_sprints_with_phases (sprint_to_row <$> sample_sprints)
     sample_phases_sorted = None)
  ∧ (sample_sprints ≠ [] →
     ∃ enriched,
       enrich_sprints_with_phases (sprint_to_row <$> sample_sprints)
         sample_phases_sorted = Some enriched
       ∧ length enriched = length sample_sprints).
Proof.
  apply (detected_sprints_can_be_enriched sample_sprints sample_phases_sorted).
  apply sample_phases_sorted_ok.
Defined.
(** ** What a player's sprints depend on *)

Section SortFilter.
Context {A : Type} (leb : A → A → bool) (P : A → Prop) `{!∀ x, Decision (P x)}.
Hypothesis leb_total : ∀ a b, leb a b = true ∨ leb b a = true.
Hypothesis leb_trans : ∀ a b c, leb a b = true → leb b c = true → leb a c = true.

Lemma insert_sorted_front (a : A) (l : list A) :
  Forall (λ x, leb a x = true) l → insert_sorted leb a l = a :: l.
Proof. destruct l as [|b t]; [done|]. intros [Hb _]%Forall_cons. cbn. by rewrite Hb. Qed.

Lemma filter_insert_sorted (a : A) (s : list A) :
  StronglySorted (λ x y, leb x y = true) s →
  filter P (insert_sorted leb a s)
  = if decide (P a) then insert_sorted leb a (filter P s) else filter P s.
Proof.
  induction 1 as [|b t Hs IH Hb]; cbn [insert_sorted].
  - rewrite filter_cons, !filter_nil. by destruct (decide (P a)).
  - destruct (leb a b) eqn:E.
    + rewrite filter_cons. destruct (decide (P a)); [|done].
      rewrite insert_sorted_front; [done|].
      apply Forall_forall. intros x Hx.
      apply list_elem_of_filter in Hx as [_ Hx].
      apply elem_of_cons in Hx as [->|Hx]; [done|].
      eapply Forall_forall in Hb; [|exact Hx]. by eapply leb_trans.
    + rewrite !(filter_cons _ b). destruct (decide (P b)).
      * rewrite IH. destruct (decide (P a)); [|done].
        cbn [insert_sorted]. by rewrite E.
      * by rewrite IH.
Qed.

(** The stable sort commutes with row selection. *)
Lemma filter_sort_values (l : list A) :
  filter P (sort_values leb l) = sort_values leb (filter P l).
Proof.
  induction l as [|a t IH]; [done|]. cbn [sort_values].
  rewrite filter_insert_sorted by (by apply sort_values_sorted).
  rewrite filter_cons. destruct (decide (P a)); [|done].
  cbn [sort_values]. by rewrite IH.
Qed.
End SortFilter.

Lemma unique_NoDup (l : list Z) : NoDup (unique l).
Proof.
  induction l as [|a t IH]; cbn; [constructor|].
  apply NoDup_cons. split; [|by apply NoDup_filter].
  intros [Hne _]%list_elem_of_filter. done.
Qed.

Lemma detect_player_absent (np_sqrt : Q → Q) (fps : Z) (th : Q)
    (pf : list PlayerFrame) (p : Z) :
  p ∉ unique (omap player_id pf) → detect_player np_sqrt fps th pf p = [].
Proof.
  intros Hp. unfold detect_player. cbv zeta.
  assert (filter (λ r, player_id r = Some p) pf = []) as ->; [|done].
  destruct (filter _ pf) as [|r rs] eqn:E; [done|]. destruct Hp.
  assert (r ∈ filter (λ r, player_id r = Some p) pf) as Hr by (rewrite E; left).
  apply list_elem_of_filter in Hr as [Hpid Hr].
  apply unique_elem, list_elem_of_omap. by exists r.
Qed.

Lemma filter_flat_map {A B} (P : B → Prop) `{!∀ x, Decision (P x)}
    (f : A → list B) (l : list A) :
  filter P (flat_map f l) = flat_map (λ x, filter P (f x)) l.
Proof. induction l as [|a t IH]; [done|]. cbn. by rewrite filter_app, IH. Qed.

Lemma filter_pair_fmap (p pid : Z) (cs : list SprintCandidate) :
  filter (λ pc : Z * SprintCandidate, pc.1 = p) (pair pid <$> cs)
  = if decide (pid = p) then pair p <$> cs else [].
Proof.
  induction cs as [|c cs IH]; [by destruct (decide (pid = p))|].
  rewrite fmap_cons, filter_cons, IH. cbn.
  destruct (decide (pid = p)) as [->|]; done.
Qed.

Lemma flat_map_other_players (f : Z → list SprintCandidate) (p : Z)
    (ids : list Z) :
  p ∉ ids →
  flat_map (λ x, filter (λ pc : Z * SprintCandidate, pc.1 = p)
                   (map (pair x) (f x)))
           ids = [].
Proof.
  induction ids as [|q ids IH]; [done|].
  intros [Hq Hnotin]%not_elem_of_cons. cbn [flat_map].
  change (map (pair q) (f q)) with (pair q <$> f q).
  rewrite filter_pair_fmap, decide_False by done. by apply IH.
Qed.

Lemma sprints_list_of_player (np_sqrt : Q → Q) (fps : Z) (th : Q)
    (pf : list PlayerFrame) (p : Z) :
  filter (λ pc : Z * SprintCandidate, pc.1 = p) (sprints_list np_sqrt fps th pf)
  = pair p <$> detect_player np_sqrt fps th pf p.
Proof.
  unfold sprints_list. rewrite filter_flat_map.
  pose proof (detect_player_absent np_sqrt fps th pf p) as Habsent.
  pose proof (unique_NoDup (omap player_id pf)) as Hnd.
  revert Habsent Hnd. generalize (unique (omap player_id pf)). intros ids.
  induction ids as [|pid ids IH]; intros Habsent Hnd.
  - cbn [flat_map]. rewrite Habsent; [done|]. apply not_elem_of_nil.
  - apply NoDup_cons in Hnd as [Hnotin Hnd]. cbn [flat_map].
    change (map (pair pid) (detect_player np_sqrt fps th pf pid))
      with (pair pid <$> detect_player np_sqrt fps th pf pid).
    rewrite filter_pair_fmap. destruct (decide (pid = p)) as [->|Hne].
    + rewrite (flat_map_other_players
                 (detect_player np_sqrt fps th pf) p ids Hnotin).
      by rewrite app_nil_r.
    + cbn [app]. apply IH; [|done]. intros Hp. apply Habsent.
      by apply not_elem_of_cons.
Qed.

Lemma filter_imap_fmap {A B C} (f : nat → A → B) (g : B → C) (h : A → C)
    (P : B → Prop) (R : A → Prop)
    `{!∀ x, Decision (P x)} `{!∀ x, Decision (R x)} (l : list A) :
  (∀ i x, P (f i x) ↔ R x) → (∀ i x, g (f i x) = h x) →
  g <$> filter P (imap f l) = h <$> filter R l.
Proof.
  revert f. induction l as [|a t IH]; intros f HP Hg; [done|].
  rewrite imap_cons, !filter_cons.
  destruct (decide (P (f 0 a))) as [Hp|Hp], (decide (R a)) as [Hr|Hr].
  - rewrite !fmap_cons, Hg. f_equal. apply IH; intros i x; [apply HP|apply Hg].
  - by apply HP in Hp.
  - by apply (HP 0) in Hr.
  - apply IH; intros i x; [apply HP|apply Hg].
Qed.

Lemma snd_pair_fmap {A B} (a : A) (l : list B) : (pair a <$> l).*2 = l.
Proof. induction l as [|b l IH]; [done|]. cbn. by rewrite IH. Qed.

Lemma detect_sprints_of_player (np_sqrt : Q → Q) (t : list TrackingRow)
    (m : string) (fps : Z) (th : Q) (out : list Sprint) (p : Z) :
  detect_sprints np_sqrt t m fps th = Some out →
  sprint_run <$> filter (λ s, sprint_player_id s = p) out
  = detect_player np_sqrt fps th
      (sort_values player_frame_leb
         (filter (λ r, player_id r = Some p) (explode_player_tracking t))) p.
Proof.
  unfold detect_sprints.
  destruct (explode_player_tracking t) as [|r rs] eqn:E; [done|].
  intros [= <-]. unfold assign_sprint_id.
  rewrite (filter_imap_fmap _ sprint_run snd _
             (λ pc : Z * SprintCandidate, pc.1 = p)) by done.
  rewrite sprints_list_of_player, snd_pair_fmap.
  unfold detect_player. cbv zeta.
  rewrite <- (filter_sort_values player_frame_leb _
                player_frame_leb_total player_frame_leb_trans (r :: rs)).
  by rewrite list_filter_filter_l by done.
Qed.

(** X24.  The sprints of a player depend on that player's rows only:
    two tracking frames that hold the same rows for a player give that
    player the same sprint runs, whatever rows of other players, or rows
    without a player_id, they hold besides. *)
Theorem player_sprints_depend_on_own_rows
    (np_sqrt : Q → Q) (t1 t2 : list TrackingRow) (m : string) (fps : Z) (th : Q)
    (out1 out2 : list Sprint) (p : Z) :
  detect_sprints np_sqrt t1 m fps th = Some out1 →
  detect_sprints np_sqrt t2 m fps th = Some out2 →
  filter (λ r, player_id r = Some p) (explode_player_tracking t1)
  = filter (λ r, player_id r = Some p) (explode_player_tracking t2) →
  sprint_run <$> filter (λ s, sprint_player_id s = p) out1
  = sprint_run <$> filter (λ s, sprint_player_id s = p) out2.
Proof.
  intros H1 H2 Hrows.
  rewrite (detect_sprints_of_player np_sqrt t1 m fps th out1 p H1).
  rewrite (detect_sprints_of_player np_sqrt t2 m fps th out2 p H2).
  by rewrite Hrows.
Qed.

Lemma player_sprints_own_rows_witness :
  sprint_run <$> filter (λ s, sprint_player_id s = 7%Z) sample_sprints
  = sprint_run <$> filter (λ s, sprint_player_id s = 7%Z) sample_mixed_sprints.
Proof.
  apply (player_sprints_depend_on_own_rows
           sample_sqrt sample_tracking sample_mixed_tracking "m1" 10 (245 # 10)).
  - by vm_compute.
  - by vm_compute.
  - by vm_compute.
Defined.
(** ** What the join of a sprint depends on *)

Lemma contains_of_match (m mid : value) (p : row) :
  contains m mid p → of_match m p = true.
Proof.
  unfold contains, contains_mid, of_match.
  destruct (p !! "match_id") as [pm|]; [|done]. cbn.
  destruct (p !! "frame_start") as [fs|]; [|done]. cbn.
  destruct (p !! "frame_end") as [fe|]; [|done]. cbn.
  destruct (pd_le fs mid) as [lo|]; [|done]. cbn.
  destruct (pd_le mid fe) as [hi|]; [|done]. cbn.
  intros [= H]. by destruct (pd_eq pm m).
Qed.

Lemma enrich_sprint_by_filter (phases_df : list row) (sprint : row)
    (m mid : value) :
  Forall phase_row_ok phases_df → not_str mid →
  sprint !! "match_id" = Some m → sprint !! "mid_frame" = Some mid →
  enrich_sprint phases_df sprint
  = match filter (contains m mid) phases_df with
    | [] => Some (no_phase sprint)
    | p :: _ => with_phase sprint p
    end.
Proof.
  intros Hp Hmid Hm Hmf. unfold enrich_sprint. rewrite Hm, Hmf. cbn.
  rewrite phase_match_filter; [done|].
  eapply Forall_impl; [exact Hp|]. intros p Hok. by apply contains_mid_total.
Qed.

(** X25.  The join of a sprint depends on the phase rows of the sprint's
    own match only: two well-formed phase tables that hold the same rows
    for that match, in the same order, give the sprint the same enriched
    record, whatever rows of other matches they hold besides. *)
Theorem enrichment_depends_on_own_match
    (phases1 phases2 : list row) (sprint : row) (m : value) :
  Forall phase_row_ok phases1 → Forall phase_row_ok phases2 →
  sprint_row_ok sprint → sprint !! "match_id" = Some m →
  filter (λ p, of_match m p = true) phases1
  = filter (λ p, of_match m p = true) phases2 →
  enrich_sprint phases1 sprint = enrich_sprint phases2 sprint.
Proof.
  intros H1 H2 (_ & mid & Hmid & Hnum) Hm Hrows.
  rewrite (enrich_sprint_by_filter phases1 sprint m mid H1 Hnum Hm Hmid).
  rewrite (enrich_sprint_by_filter phases2 sprint m mid H2 Hnum Hm Hmid).
  rewrite <- (list_filter_filter_l (contains m mid)
                (λ p, of_match m p = true) phases1)
    by (intros p; apply contains_of_match).
  rewrite <- (list_filter_filter_l (contains m mid)
                (λ p, of_match m p = true) phases2)
    by (intros p; apply contains_of_match).
  by rewrite Hrows.
Qed.

Lemma sample_other_match_phase_ok : phase_row_ok sample_other_match_phase.
Proof.
  split; [eexists; reflexivity|]. split; [exists (VInt 0); by vm_compute|].
  split; [exists (VInt 100); by vm_compute|].
  repeat split; eexists; reflexivity.
Qed.

Lemma enrichment_own_match_witness :
  enrich_sprint sample_phases_sorted (sprint_to_row sample_sprint)
  = enrich_sprint (sample_other_match_phase :: sample_phases_sorted)
      (sprint_to_row sample_sprint).
Proof.
  apply (enrichment_depends_on_own_match
           sample_phases_sorted (sample_other_match_phase :: sample_phases_sorted)
           (sprint_to_row sample_sprint) (VStr "m1")).
  - apply sample_phases_sorted_ok.
  - apply Forall_cons. split;
      [apply sample_other_match_phase_ok|apply sample_phases_sorted_ok].
  - apply sprint_to_row_ok.
  - reflexivity.
  - rewrite (filter_cons _ sample_other_match_phase).
    by rewrite decide_False by (by vm_compute).
Defined.
